(** * Bank Support Assistant: the question form and the retrieval core

    The first part embeds [frontend/src/App.js]: the React component
    [App], its state, its handlers [handleSubmit] and [handleFileChange]
    and its markup.  Handlers are programs over an effect signature
    (state setters, [fetch], [Response.json], [console.error]); a run
    interprets them against a world that settles every awaited promise.

    The second part models the retrieval core (chunker, vector index,
    index manager, retriever, answer generator) that the form talks to
    through [/add-document] and [/query]. *)

From Stdlib Require Import List String Ascii NArith ZArith Bool Arith Lia.
From Stdlib Require Import Floats.PrimFloat.
From Stdlib Require Import Sorting.Sorted Permutation.
Import ListNotations.
Local Open Scope string_scope.
Local Open Scope list_scope.

Set Implicit Arguments.

(** ** JavaScript data *)

Module JS.

(** A JavaScript string is a sequence of UTF-16 code units. *)
Definition jsstring := list N.

(** Source literals are ASCII; [lit] injects them. *)
Definition lit (s : string) : jsstring :=
  map N_of_ascii (list_ascii_of_string s).

Definition code_unit_eqb (a b : N) : bool := N.eqb a b.

Fixpoint jsstring_eqb (a b : jsstring) : bool :=
  match a, b with
  | [], [] => true
  | x :: a', y :: b' => code_unit_eqb x y && jsstring_eqb a' b'
  | _, _ => false
  end.

(** ECMAScript WhiteSpace and LineTerminator code points, the ones
    [String.prototype.trim] strips.  All of them lie in the BMP. *)
Definition is_whitespace (c : N) : bool :=
  (N.eqb c 0x09 || N.eqb c 0x0A || N.eqb c 0x0B || N.eqb c 0x0C ||
   N.eqb c 0x0D || N.eqb c 0x20 || N.eqb c 0xA0 || N.eqb c 0x1680 ||
   (N.leb 0x2000 c && N.leb c 0x200A) ||
   N.eqb c 0x2028 || N.eqb c 0x2029 || N.eqb c 0x202F ||
   N.eqb c 0x205F || N.eqb c 0x3000 || N.eqb c 0xFEFF)%bool.

Fixpoint trimStart (s : jsstring) : jsstring :=
  match s with
  | c :: s' => if is_whitespace c then trimStart s' else s
  | [] => []
  end.

Definition trimEnd (s : jsstring) : jsstring := rev (trimStart (rev s)).

Definition trim (s : jsstring) : jsstring := trimEnd (trimStart s).

(** A JavaScript number is an IEEE 754 binary64. *)
Definition number := float.

(** Values that [JSON.parse] (hence [Response.json]) can produce. *)
#[warnings="-register-all"]
Inductive json : Type :=
| JNull
| JBool (b : bool)
| JNumber (x : number)
| JString (s : jsstring)
| JArray (items : list json)
| JObject (props : list (jsstring * json)).

(** What a property read can yield: a JSON value or [undefined]. *)
Inductive value : Type :=
| Undefined
| OfJson (j : json).

Definition VString (s : jsstring) : value := OfJson (JString s).

(** A thrown value: an [Error] with its name and message. *)
Record Exn : Type := { exn_name : string; exn_message : string }.

Inductive Completion (X : Type) : Type :=
| Normal (x : X)
| Abrupt (e : Exn).
Arguments Abrupt {X} e.

Fixpoint assoc (key : jsstring) (props : list (jsstring * json)) : option json :=
  match props with
  | [] => None
  | (k, v) :: rest => if jsstring_eqb k key then Some v else assoc key rest
  end.

(** [o.name] for [o] produced by [JSON.parse]: reading a property of
    [null] throws a TypeError; primitives and arrays have no own or
    inherited property of the names used here. *)
Definition get_property (o : json) (name : string) : Completion value :=
  match o with
  | JNull =>
      Abrupt {| exn_name := "TypeError";
                exn_message := "Cannot read properties of null" |}
  | JObject props =>
      match assoc (lit name) props with
      | Some v => Normal (OfJson v)
      | None => Normal Undefined
      end
  | JBool _ | JNumber _ | JString _ | JArray _ => Normal Undefined
  end.

(** ToBoolean. *)
Definition truthy (v : value) : bool :=
  match v with
  | Undefined => false
  | OfJson JNull => false
  | OfJson (JBool b) => b
  | OfJson (JNumber x) => PrimFloat.eqb x x && negb (PrimFloat.eqb x zero)
  | OfJson (JString s) => match s with [] => false | _ => true end
  | OfJson (JArray _) | OfJson (JObject _) => true
  end.

(** *** JSON.stringify on records of strings *)

Definition hex_digit (d : N) : N :=
  if N.ltb d 10 then 0x30 + d else 0x61 + (d - 10).

(** UnicodeEscape: [\uXXXX] with lower-case hexadecimal digits. *)
Definition unicode_escape (c : N) : jsstring :=
  [0x5C; 0x75;
   hex_digit (N.modulo (N.shiftr c 12) 16);
   hex_digit (N.modulo (N.shiftr c 8) 16);
   hex_digit (N.modulo (N.shiftr c 4) 16);
   hex_digit (N.modulo c 16)]%N.

Definition is_high_surrogate (c : N) : bool := N.leb 0xD800 c && N.leb c 0xDBFF.
Definition is_low_surrogate (c : N) : bool := N.leb 0xDC00 c && N.leb c 0xDFFF.

(** One code unit that is not part of a surrogate pair. *)
Definition quote_unit (c : N) : jsstring :=
  if N.eqb c 0x08 then lit "\b"
  else if N.eqb c 0x09 then lit "\t"
  else if N.eqb c 0x0A then lit "\n"
  else if N.eqb c 0x0C then lit "\f"
  else if N.eqb c 0x0D then lit "\r"
  else if N.eqb c 0x22 then [0x5C; 0x22]%N
  else if N.eqb c 0x5C then [0x5C; 0x5C]%N
  else if N.ltb c 0x20 then unicode_escape c
  else if is_high_surrogate c || is_low_surrogate c then unicode_escape c
  else [c].

(** The body of QuoteJSONString: a well-formed surrogate pair is copied,
    a lone surrogate is escaped. *)
Fixpoint quote_units (s : jsstring) : jsstring :=
  match s with
  | [] => []
  | c :: rest =>
      match rest with
      | d :: rest' =>
          if is_high_surrogate c && is_low_surrogate d
          then c :: d :: quote_units rest'
          else quote_unit c ++ quote_units rest
      | [] => quote_unit c
      end
  end.

Definition QuoteJSONString (s : jsstring) : jsstring :=
  [0x22%N] ++ quote_units s ++ [0x22%N].

(** SerializeJSONObject without indentation, for an object whose own
    enumerable properties all hold strings. *)
Fixpoint serialize_properties (props : list (jsstring * jsstring)) : jsstring :=
  match props with
  | [] => []
  | [(k, v)] => QuoteJSONString k ++ lit ":" ++ QuoteJSONString v
  | (k, v) :: rest =>
      QuoteJSONString k ++ lit ":" ++ QuoteJSONString v ++ lit ","
        ++ serialize_properties rest
  end.

Definition JSON_stringify (props : list (jsstring * jsstring)) : jsstring :=
  lit "{" ++ serialize_properties props ++ lit "}".

(** *** Reading a serialised string back *)

Definition unhex_digit (c : N) : option N :=
  if N.leb 0x30 c && N.leb c 0x39 then Some (c - 0x30)%N
  else if N.leb 0x61 c && N.leb c 0x66 then Some (c - 0x61 + 10)%N
  else if N.leb 0x41 c && N.leb c 0x46 then Some (c - 0x41 + 10)%N
  else None.

Definition unhex4 (a b c d : N) : option N :=
  match unhex_digit a, unhex_digit b, unhex_digit c, unhex_digit d with
  | Some x, Some y, Some z, Some t => Some (((x * 16 + y) * 16 + z) * 16 + t)%N
  | _, _, _, _ => None
  end.

Definition prepend (c : N) (r : option (jsstring * jsstring))
  : option (jsstring * jsstring) :=
  match r with
  | Some (s, rest) => Some (c :: s, rest)
  | None => None
  end.

(** The JSON string grammar, read from just after the opening quote: the
    decoded code units and what follows the closing quote. *)
Fixpoint unquote (s : jsstring) : option (jsstring * jsstring) :=
  match s with
  | [] => None
  | c :: rest =>
      if N.eqb c 0x22 then Some ([], rest)
      else if N.eqb c 0x5C then
        match rest with
        | e :: rest1 =>
            if N.eqb e 0x62 then prepend 0x08 (unquote rest1)
            else if N.eqb e 0x74 then prepend 0x09 (unquote rest1)
            else if N.eqb e 0x6E then prepend 0x0A (unquote rest1)
            else if N.eqb e 0x66 then prepend 0x0C (unquote rest1)
            else if N.eqb e 0x72 then prepend 0x0D (unquote rest1)
            else if N.eqb e 0x22 then prepend 0x22 (unquote rest1)
            else if N.eqb e 0x5C then prepend 0x5C (unquote rest1)
            else if N.eqb e 0x2F then prepend 0x2F (unquote rest1)
            else if N.eqb e 0x75 then
              match rest1 with
              | h1 :: h2 :: h3 :: h4 :: rest2 =>
                  match unhex4 h1 h2 h3 h4 with
                  | Some u => prepend u (unquote rest2)
                  | None => None
                  end
              | _ => None
              end
            else None
        | [] => None
        end
      else if N.ltb c 0x20 then None
      else prepend c (unquote rest)
  end.

(** The text of an object with exactly one property, both its name and
    its value strings, read back; anything else is refused. *)
Definition parse_single_property (s : jsstring) : option (jsstring * jsstring) :=
  match s with
  | 0x7B%N :: 0x22%N :: rest =>
      match unquote rest with
      | Some (k, 0x3A%N :: 0x22%N :: rest1) =>
          match unquote rest1 with
          | Some (v, [0x7D%N]) => Some (k, v)
          | _ => None
          end
      | _ => None
      end
  | _ => None
  end.

(** The [count] numbers from [start] on. *)
Fixpoint N_range (start : N) (count : nat) : list N :=
  match count with
  | O => []
  | S count' => start :: N_range (N.succ start) count'
  end.

Lemma N_range_in (count : nat) (start c : N) :
  (start <= c)%N -> (c < start + N.of_nat count)%N -> In c (N_range start count).
Proof.
  revert start; induction count as [|count IH]; intros start Hlo Hhi; [lia|].
  simpl. destruct (N.eq_dec start c) as [->|Hne]; [now left|right].
  apply IH; lia.
Qed.

Definition escape_reads_back (c : N) : bool :=
  match unicode_escape c with
  | [_; _; h1; h2; h3; h4] =>
      match unhex4 h1 h2 h3 h4 with
      | Some u => N.eqb u c
      | None => false
      end
  | _ => false
  end.

(** The code units [QuoteJSONString] writes as [\uXXXX]: the control
    characters and the surrogates. *)
Lemma escapes_read_back :
  forallb escape_reads_back (N_range 0 32 ++ N_range 0xD800 2048) = true.
Proof. vm_compute. reflexivity. Qed.

Lemma escape_reads_back_ok (c : N) :
  (c < 0x20)%N \/ (0xD800 <= c <= 0xDFFF)%N -> escape_reads_back c = true.
Proof.
  intros H. pose proof escapes_read_back as A.
  rewrite forallb_forall in A. apply A. apply in_or_app.
  destruct H as [H|H]; [left|right]; apply N_range_in; lia.
Qed.

Lemma plain_reads (c : N) (tail : jsstring) :
  (0x20 <= c)%N -> c <> 0x22%N -> c <> 0x5C%N ->
  unquote (c :: tail) = prepend c (unquote tail).
Proof.
  intros Hlo Hq Hb. simpl.
  apply N.eqb_neq in Hq, Hb. rewrite Hq, Hb.
  replace (N.ltb c 0x20) with false by (symmetry; apply N.ltb_ge; exact Hlo).
  reflexivity.
Qed.

Lemma escape_reads (c : N) (tail : jsstring) :
  (c < 0x20)%N \/ (0xD800 <= c <= 0xDFFF)%N ->
  unquote (unicode_escape c ++ tail) = prepend c (unquote tail).
Proof.
  intros H. apply escape_reads_back_ok in H.
  unfold escape_reads_back, unicode_escape in *. cbn [app unquote].
  change (N.eqb 0x5C 0x22) with false. change (N.eqb 0x5C 0x5C) with true.
  cbv iota.
  change (N.eqb 0x75 0x62) with false. change (N.eqb 0x75 0x74) with false.
  change (N.eqb 0x75 0x6E) with false. change (N.eqb 0x75 0x66) with false.
  change (N.eqb 0x75 0x72) with false. change (N.eqb 0x75 0x22) with false.
  change (N.eqb 0x75 0x5C) with false. change (N.eqb 0x75 0x2F) with false.
  change (N.eqb 0x75 0x75) with true. cbv iota.
  destruct (unhex4 _ _ _ _) as [u|]; [|discriminate].
  apply N.eqb_eq in H. now subst.
Qed.

Lemma surrogate_range (c : N) :
  is_high_surrogate c || is_low_surrogate c = true ->
  (0xD800 <= c <= 0xDFFF)%N.
Proof.
  unfold is_high_surrogate, is_low_surrogate.
  rewrite orb_true_iff, !andb_true_iff, !N.leb_le. lia.
Qed.

(** Every code unit is read back from what [quote_unit] writes for it. *)
Lemma quote_unit_reads (c : N) (tail : jsstring) :
  unquote (quote_unit c ++ tail) = prepend c (unquote tail).
Proof.
  unfold quote_unit.
  destruct (N.eqb c 0x08) eqn:E1; [apply N.eqb_eq in E1; now subst|].
  destruct (N.eqb c 0x09) eqn:E2; [apply N.eqb_eq in E2; now subst|].
  destruct (N.eqb c 0x0A) eqn:E3; [apply N.eqb_eq in E3; now subst|].
  destruct (N.eqb c 0x0C) eqn:E4; [apply N.eqb_eq in E4; now subst|].
  destruct (N.eqb c 0x0D) eqn:E5; [apply N.eqb_eq in E5; now subst|].
  destruct (N.eqb c 0x22) eqn:E6; [apply N.eqb_eq in E6; now subst|].
  destruct (N.eqb c 0x5C) eqn:E7; [apply N.eqb_eq in E7; now subst|].
  destruct (N.ltb c 0x20) eqn:E8.
  - apply escape_reads. left. now apply N.ltb_lt.
  - destruct (is_high_surrogate c || is_low_surrogate c) eqn:E9.
    + apply escape_reads. right. now apply surrogate_range.
    + apply N.eqb_neq in E6, E7. apply N.ltb_ge in E8.
      now apply plain_reads.
Qed.

Lemma surrogate_plain (c : N) (tail : jsstring) :
  is_high_surrogate c || is_low_surrogate c = true ->
  unquote (c :: tail) = prepend c (unquote tail).
Proof.
  intros H. apply surrogate_range in H. apply plain_reads; lia.
Qed.

Lemma quote_units_two (c d : N) (rest : jsstring) :
  quote_units (c :: d :: rest) =
  if is_high_surrogate c && is_low_surrogate d
  then c :: d :: quote_units rest
  else quote_unit c ++ quote_units (d :: rest).
Proof. reflexivity. Qed.

(** What [QuoteJSONString] writes is read back as the string it was
    given, up to the closing quote. *)
Lemma unquote_quote_units (s rest : jsstring) :
  unquote (quote_units s ++ 0x22%N :: rest) = Some (s, rest).
Proof.
  remember (List.length s) as n eqn:Hn.
  assert (Hle : List.length s <= n) by lia. clear Hn.
  revert s Hle; induction n as [|n IH]; intros s Hle.
  - destruct s; [reflexivity|simpl in Hle; lia].
  - destruct s as [|c [|d rest']]; [reflexivity| |].
    + cbn [quote_units]. now rewrite quote_unit_reads.
    + rewrite quote_units_two.
      destruct (is_high_surrogate c && is_low_surrogate d) eqn:E.
      * apply andb_prop in E. destruct E as [Hc Hd].
        cbn [app]. rewrite surrogate_plain by (rewrite Hc; reflexivity).
        rewrite surrogate_plain by (rewrite Hd; apply orb_true_r).
        rewrite IH by (simpl in *; lia). reflexivity.
      * rewrite <- app_assoc, quote_unit_reads.
        rewrite IH by (simpl in *; lia). reflexivity.
Qed.

(** The text [JSON.stringify] writes for an object with one string
    property is read back as that property and nothing else. *)
Lemma parse_stringify_single (k v : jsstring) :
  parse_single_property (JSON_stringify [(k, v)]) = Some (k, v).
Proof.
  unfold JSON_stringify, serialize_properties, QuoteJSONString.
  change (lit "{") with [0x7B%N]. change (lit ":") with [0x3A%N].
  change (lit "}") with [0x7D%N].
  repeat rewrite <- app_assoc. cbn [app parse_single_property].
  rewrite unquote_quote_units. rewrite unquote_quote_units. reflexivity.
Qed.

(** A quote, a line feed, a lone surrogate and a letter: each is escaped
    as ECMAScript prescribes, and the text is read back unchanged. *)
Example stringify_escapes :
  JSON_stringify [(lit "q", [0x22; 0x0A; 0xD800; 0x41]%N)]
  = (lit "{" ++ [0x22] ++ lit "q" ++ [0x22] ++ lit ":" ++ [0x22]
       ++ [0x5C; 0x22] ++ lit "\n" ++ lit "\ud800" ++ lit "A" ++ [0x22]
       ++ lit "}")%N /\
  parse_single_property (JSON_stringify [(lit "q", [0x22; 0x0A; 0xD800; 0x41]%N)])
  = Some (lit "q", [0x22; 0x0A; 0xD800; 0x41]%N).
Proof. split; reflexivity. Qed.

End JS.

Import JS.

(** ** Browser objects the component touches *)

(** A [File] picked in the file input. *)
Record File : Type := {
  file_name : jsstring;
  file_type : jsstring;
  file_bytes : list N
}.

(** The [file] state: [null] initially, [undefined] after an empty
    selection ([files[0]] of an empty FileList), or a [File]. *)
Inductive FileSlot : Type :=
| FileNull
| FileUndefined
| Picked (f : File).

(** [if (file)]: [null] and [undefined] are falsy, every object is truthy. *)
Definition file_truthy (s : FileSlot) : bool :=
  match s with
  | Picked _ => true
  | FileNull | FileUndefined => false
  end.

(** A [FormData]: the ordered list of its entries. *)
Definition FormData := list (string * File).
Definition FormData_new : FormData := [].
Definition FormData_append (fd : FormData) (name : string) (f : File) : FormData :=
  fd ++ [(name, f)].

Inductive Body : Type :=
| FormBody (fd : FormData)
| TextBody (text : jsstring).

(** The arguments of one [fetch] call. *)
Record Request : Type := {
  url : string;
  method : string;
  headers : list (string * string);
  body : Body
}.

(** The [Response] a fetch resolves with.  Its body is decoded by the
    world when [json()] is awaited. *)
Record Response : Type := {
  resp_status : N;
  resp_body : list N
}.

Inductive SubmitEvent : Type := FormSubmit.

(** A change event of the file input: [e.target.files]. *)
Record FileChangeEvent : Type := { target_files : list File }.

(** A change event of the textarea: [e.target.value]. *)
Record TextChangeEvent : Type := { target_value : jsstring }.

Inductive LogArg : Type :=
| LogText (s : string)
| LogError (e : Exn).

(** ** Handlers as programs *)

(** A pending promise, with what it was created from.  In this component
    every promise is awaited exactly once, where it is created. *)
Inductive Promise : Type -> Type :=
| FetchPromise (r : Request) : Promise Response
| JsonPromise (r : Response) : Promise json.

(** The operations a handler performs on its environment.  [Fetch] and
    [ResponseJson] start the operation and hand back its promise at once;
    the handler is suspended only at an [Await]. *)
Inductive Eff : Type -> Type :=
| PreventDefault (e : SubmitEvent) : Eff unit
| SetQuestion (q : jsstring) : Eff unit
| SetResponse (v : value) : Eff unit
| SetLoading (b : bool) : Eff unit
| SetFile (s : FileSlot) : Eff unit
| Fetch (r : Request) : Eff (Promise Response)
| ResponseJson (r : Response) : Eff (Promise json)
| Await (X : Type) (p : Promise X) : Eff (Completion X)
| ConsoleError (args : list LogArg) : Eff unit.
Arguments Await {X} p.

Inductive Prog (R : Type) : Type :=
| Ret (r : R)
| Throw (e : Exn)
| Vis (X : Type) (op : Eff X) (k : X -> Prog R).
Arguments Throw {R} e.
Arguments Vis {R X} op k.

Fixpoint bind {A B : Type} (m : Prog A) (f : A -> Prog B) : Prog B :=
  match m with
  | Ret a => f a
  | Throw e => Throw e
  | Vis op k => Vis op (fun x => bind (k x) f)
  end.

(** [try { m } catch (error) { h error }] *)
Fixpoint try_catch {A : Type} (m : Prog A) (h : Exn -> Prog A) : Prog A :=
  match m with
  | Ret a => Ret a
  | Throw e => h e
  | Vis op k => Vis op (fun x => try_catch (k x) h)
  end.

(** [try { m } finally { f }]: [f] runs on both exits and the completion
    of [m] is kept. *)
Fixpoint try_finally {A : Type} (m : Prog A) (f : Prog unit) : Prog A :=
  match m with
  | Ret a => bind f (fun _ => Ret a)
  | Throw e => bind f (fun _ => Throw e)
  | Vis op k => Vis op (fun x => try_finally (k x) f)
  end.

Declare Scope prog_scope.
Delimit Scope prog_scope with prog.
Notation "x <- m ;; k" := (bind m (fun x => k))
  (at level 61, m at next level, right associativity) : prog_scope.
Notation "m ;; k" := (bind m (fun _ => k))
  (at level 61, right associativity) : prog_scope.
Open Scope prog_scope.

(** [try { m } catch (error) { h error } finally { f }] *)
Definition try_catch_finally {A : Type}
  (m : Prog A) (h : Exn -> Prog A) (f : Prog unit) : Prog A :=
  try_finally (try_catch m h) f.

Definition perform {X : Type} (op : Eff X) : Prog X := Vis op (fun x => Ret x).

Definition of_completion {X : Type} (c : Completion X) : Prog X :=
  match c with Normal x => Ret x | Abrupt e => Throw e end.

(** [await m]: evaluate [m] to a promise, suspend until it settles; a
    rejection is rethrown at the await. *)
Definition await {X : Type} (m : Prog (Promise X)) : Prog X :=
  p <- m ;; c <- perform (Await p) ;; of_completion c.

Definition preventDefault (e : SubmitEvent) : Prog unit := perform (PreventDefault e).
Definition setQuestion (q : jsstring) : Prog unit := perform (SetQuestion q).
Definition setResponse (v : value) : Prog unit := perform (SetResponse v).
Definition setLoading (b : bool) : Prog unit := perform (SetLoading b).
Definition setFile (s : FileSlot) : Prog unit := perform (SetFile s).
Definition fetch (u : string) (m : string) (h : list (string * string)) (b : Body)
  : Prog (Promise Response) :=
  perform (Fetch {| url := u; method := m; headers := h; body := b |}).
Definition json_of (r : Response) : Prog (Promise json) := perform (ResponseJson r).
Definition console_error (args : list LogArg) : Prog unit := perform (ConsoleError args).

(** ** Markup *)

Inductive Attr : Type :=
| AttrText (name : string) (v : string)
| AttrNumber (name : string) (n : N)
| AttrValue (v : jsstring)
| AttrDisabled (b : bool)
| OnSubmit (h : SubmitEvent -> Prog unit)
| OnTextChange (h : TextChangeEvent -> Prog unit)
| OnFileChange (h : FileChangeEvent -> Prog unit).

(** A rendered JSX tree.  [className] is kept apart from the other
    attributes: it is the only presentation attribute the component uses. *)
#[warnings="-register-all"]
Inductive Node : Type :=
| Element (tag : string) (className : option string)
          (attrs : list Attr) (children : list Node)
| Text (s : string)
| Interp (v : value)
| Fragment (children : list Node).

(** The tree with every [className] removed. *)
Fixpoint strip_presentation (n : Node) : Node :=
  match n with
  | Element tag _ attrs children =>
      Element tag None attrs (map strip_presentation children)
  | Fragment children => Fragment (map strip_presentation children)
  | Text s => Text s
  | Interp v => Interp v
  end.

(** ** The component state *)

Record AppState : Type := {
  question : jsstring;
  response : value;
  loading : bool;
  file : FileSlot
}.

(** [useState('')], [useState('')], [useState(false)], [useState(null)] *)
Definition initial_state : AppState :=
  {| question := lit ""; response := VString (lit "");
     loading := false; file := FileNull |}.

Definition add_document_url : string := "http://localhost:8000/add-document".
Definition query_url : string := "http://localhost:8000/query".
Definition error_message : string :=
  "Sorry, there was an error processing your request.".

(** [files[0]]: the first file, [undefined] on an empty list. *)
Definition first_file (files : list File) : FileSlot :=
  match files with
  | f :: _ => Picked f
  | [] => FileUndefined
  end.

(** *** First version of [App] (lines 4-122) *)

Module V1.
Section Closure.
(** The state values the render closed over. *)
Variable props : AppState.

Definition handleSubmit (e : SubmitEvent) : Prog unit :=
  preventDefault e ;;
  setLoading true ;;
  try_catch_finally
    ((* First upload the file if one is selected *)
     match file props with
     | Picked f =>
         let fileFormData := FormData_new in
         let fileFormData := FormData_append fileFormData "doc" f in
         _ <- await (fetch add_document_url "POST" [] (FormBody fileFormData)) ;;
         Ret tt
     | FileNull | FileUndefined => Ret tt
     end ;;
     (* Then send the question *)
     response <- await (fetch query_url "POST"
                          [("Content-Type", "application/json")]
                          (TextBody (JSON_stringify
                                       [(lit "question", question props)]))) ;;
     data <- await (json_of response) ;;
     answer <- of_completion (get_property data "answer") ;;
     setResponse answer)
    (fun error =>
     console_error [LogText "Error:"; LogError error] ;;
     setResponse (VString (lit error_message)))
    (setLoading false).

Definition handleFileChange (e : FileChangeEvent) : Prog unit :=
  setFile (first_file (target_files e)).

(** [disabled={loading || !question.trim()}] *)
Definition submit_disabled : bool :=
  loading props || negb (truthy (VString (trim (question props)))).

(** The JSX the component returns.  The [className] of the file input
    spans several source lines. *)
Definition App : Node :=
  Element "div" (Some "min-h-screen bg-gray-50") [] [
    Element "div" (Some "max-w-4xl mx-auto py-8 px-4 sm:px-6 lg:px-8") [] [
      Element "div" (Some "text-center mb-8") [] [
        Element "h1" (Some "text-3xl font-bold text-gray-900") []
          [Text "Bank Support Assistant"];
        Element "p" (Some "mt-2 text-gray-600") []
          [Text "Ask any questions about our banking services"]];
      Element "div" (Some "bg-white rounded-lg shadow-lg p-6") [] [
        Element "form" (Some "space-y-4") [OnSubmit handleSubmit] [
          Element "div" None [] [
            Element "label" (Some "block text-sm font-medium text-gray-700")
              [AttrText "htmlFor" "question"] [Text "Your Question"];
            Element "div" (Some "mt-1") [] [
              Element "textarea"
                (Some "shadow-sm focus:ring-blue-500 focus:border-blue-500 block w-full sm:text-sm border-gray-300 rounded-md")
                [AttrText "id" "question"; AttrText "name" "question";
                 AttrNumber "rows" 4; AttrValue (question props);
                 OnTextChange (fun e => setQuestion (target_value e));
                 AttrText "placeholder" "Type your question here..."] []]];
          Element "div" None [] [
            Element "label" (Some "block text-sm font-medium text-gray-700") []
              [Text "Upload Document (Optional)"];
            Element "div" (Some "mt-1 flex items-center") [] [
              Element "input"
                (Some "block w-full text-sm text-gray-500 file:mr-4 file:py-2 file:px-4 file:rounded-md file:border-0 file:text-sm file:font-semibold file:bg-blue-50 file:text-blue-700 hover:file:bg-blue-100")
                [AttrText "type" "file"; OnFileChange handleFileChange] []]];
          Element "div" (Some "flex justify-end") [] [
            Element "button"
              (Some "inline-flex items-center px-4 py-2 border border-transparent text-sm font-medium rounded-md shadow-sm text-white bg-blue-600 hover:bg-blue-700 focus:outline-none focus:ring-2 focus:ring-offset-2 focus:ring-blue-500 disabled:opacity-50")
              [AttrText "type" "submit"; AttrDisabled submit_disabled] [
                if loading props
                then Text "Processing..."
                else Fragment [
                  Element "PaperAirplaneIcon" (Some "h-5 w-5 mr-2") [] [];
                  Text "Submit Question"]]]];
        if truthy (response props)
        then
          Element "div" (Some "mt-6") [] [
            Element "h2" (Some "text-lg font-medium text-gray-900 mb-2") []
              [Text "Response"];
            Element "div" (Some "bg-gray-50 rounded-lg p-4") [] [
              Element "p" (Some "text-gray-700 whitespace-pre-wrap") []
                [Interp (response props)]]]
        else Interp (response props)]]].
End Closure.
End V1.

(** *** Second version of [App] (lines 127-245) *)

Module V2.
Section Closure.
Variable props : AppState.

Definition handleSubmit (e : SubmitEvent) : Prog unit :=
  preventDefault e ;;
  setLoading true ;;
  try_catch_finally
    ((* First upload the file if one is selected *)
     match file props with
     | Picked f =>
         let fileFormData := FormData_new in
         let fileFormData := FormData_append fileFormData "doc" f in
         _ <- await (fetch "http://localhost:8000/add-document" "POST" []
                       (FormBody fileFormData)) ;;
         Ret tt
     | FileNull | FileUndefined => Ret tt
     end ;;
     (* Then send the question *)
     response <- await (fetch "http://localhost:8000/query" "POST"
                          [("Content-Type", "application/json")]
                          (TextBody (JSON_stringify
                                       [(lit "question", question props)]))) ;;
     data <- await (json_of response) ;;
     answer <- of_completion (get_property data "answer") ;;
     setResponse answer)
    (fun error =>
     console_error [LogText "Error:"; LogError error] ;;
     setResponse
       (VString (lit "Sorry, there was an error processing your request.")))
    (setLoading false).

Definition handleFileChange (e : FileChangeEvent) : Prog unit :=
  setFile (first_file (target_files e)).

(** [disabled={loading || !question.trim()}] *)
Definition submit_disabled : bool :=
  loading props || negb (truthy (VString (trim (question props)))).

(** The JSX the component returns.  The [className] of the file input
    spans several source lines. *)
Definition App : Node :=
  Element "div" (Some "min-h-screen bg-gray-50") [] [
    Element "div" (Some "max-w-4xl mx-auto py-12 px-4 sm:px-6 lg:px-8") [] [
      Element "div" (Some "text-center mb-10") [] [
        Element "h1" (Some "text-4xl font-bold text-gray-900 font-serif") []
          [Text "Bank Support Assistant"];
        Element "p" (Some "mt-3 text-lg text-gray-600") []
          [Text "Ask any questions about our banking services"]];
      Element "div" (Some "bg-white rounded-lg shadow-xl p-8") [] [
        Element "form" (Some "space-y-6") [OnSubmit handleSubmit] [
          Element "div" None [] [
            Element "label" (Some "block text-sm font-medium text-gray-700 mb-2")
              [AttrText "htmlFor" "question"] [Text "Your Question"];
            Element "div" (Some "mt-1") [] [
              Element "textarea"
                (Some "shadow-sm focus:ring-blue-500 focus:border-blue-500 block w-full sm:text-sm border-gray-300 rounded-md p-4 font-sans text-base")
                [AttrText "id" "question"; AttrText "name" "question";
                 AttrNumber "rows" 4; AttrValue (question props);
                 OnTextChange (fun e => setQuestion (target_value e));
                 AttrText "placeholder" "Type your question here..."] []]];
          Element "div" None [] [
            Element "label" (Some "block text-sm font-medium text-gray-700 mb-2") []
              [Text "Upload Document (Optional)"];
            Element "div" (Some "mt-1 flex items-center") [] [
              Element "input"
                (Some "block w-full text-sm text-gray-500 file:mr-4 file:py-2 file:px-4 file:rounded-md file:border-0 file:text-sm file:font-semibold file:bg-blue-50 file:text-blue-700 hover:file:bg-blue-100")
                [AttrText "type" "file"; OnFileChange handleFileChange] []]];
          Element "div" (Some "flex justify-end") [] [
            Element "button"
              (Some "inline-flex items-center px-6 py-3 border border-transparent text-base font-medium rounded-md shadow-sm text-white bg-blue-600 hover:bg-blue-700 focus:outline-none focus:ring-2 focus:ring-offset-2 focus:ring-blue-500 disabled:opacity-50 transition-colors duration-200")
              [AttrText "type" "submit"; AttrDisabled submit_disabled] [
                if loading props
                then Text "Processing..."
                else Fragment [
                  Element "PaperAirplaneIcon" (Some "h-5 w-5 mr-2") [] [];
                  Text "Submit Question"]]]];
        if truthy (response props)
        then
          Element "div" (Some "mt-8") [] [
            Element "h2" (Some "text-xl font-medium text-gray-900 mb-3") []
              [Text "Response"];
            Element "div" (Some "bg-gray-50 rounded-lg p-6") [] [
              Element "p" (Some "text-gray-700 whitespace-pre-wrap text-base leading-relaxed") []
                [Interp (response props)]]]
        else Interp (response props)]]].
End Closure.
End V2.

(** ** Running a handler *)

(** What the user does to the form while a handler is suspended. *)
Inductive Edit : Type :=
| Typed (e : TextChangeEvent)
| Chose (e : FileChangeEvent).

Inductive Event : Type :=
| EPreventDefault (e : SubmitEvent)
| ESetQuestion (q : jsstring)
| ESetResponse (v : value)
| ESetLoading (b : bool)
| ESetFile (s : FileSlot)
| ERequest (r : Request)
| ESettled (r : Request) (c : Completion Response)
| EJsonRead (r : Response)
| EJsonSettled (r : Response) (c : Completion json)
| EConsoleError (args : list LogArg)
| EUser (ed : Edit).

(** One line of the log: the event and the component state right after it. *)
Record Entry : Type := { ev : Event; at_state : AppState }.

Definition Log := list Entry.
Definition events (log : Log) : list Event := map ev log.

(** How an awaited promise settles: what the user did meanwhile, and
    whether it resolved or rejected. *)
Record Settled (X : Type) : Type := {
  meanwhile : list Edit;
  outcome : Completion X
}.

(** The world decides both, knowing everything that happened so far. *)
Record World : Type := {
  on_fetch : list Event -> Request -> Settled Response;
  on_json : list Event -> Response -> Settled json
}.

Definition set_question (q : jsstring) (st : AppState) : AppState :=
  {| question := q; response := response st;
     loading := loading st; file := file st |}.
Definition set_response (v : value) (st : AppState) : AppState :=
  {| question := question st; response := v;
     loading := loading st; file := file st |}.
Definition set_loading (b : bool) (st : AppState) : AppState :=
  {| question := question st; response := response st;
     loading := b; file := file st |}.
Definition set_file (s : FileSlot) (st : AppState) : AppState :=
  {| question := question st; response := response st;
     loading := loading st; file := s |}.

(** The state after the change handler of the edited control has run. *)
Definition apply_edit (ed : Edit) (st : AppState) : AppState :=
  match ed with
  | Typed e => set_question (target_value e) st
  | Chose e => set_file (first_file (target_files e)) st
  end.

Definition note (e : Event) (st : AppState) (log : Log) : Log :=
  log ++ [{| ev := e; at_state := st |}].

Fixpoint apply_edits (eds : list Edit) (st : AppState) (log : Log) : AppState * Log :=
  match eds with
  | [] => (st, log)
  | ed :: rest =>
      let st' := apply_edit ed st in
      apply_edits rest st' (note (EUser ed) st' log)
  end.

(** An awaited promise settles: the user edits the form meanwhile, then
    the handler resumes with the outcome. *)
Definition exec_await {X : Type} (w : World) (p : Promise X)
  (st : AppState) (log : Log) : Completion X * AppState * Log :=
  match p in Promise X return Completion X * AppState * Log with
  | FetchPromise r =>
      let s := on_fetch w (events log) r in
      let '(st2, log2) := apply_edits (meanwhile s) st log in
      (outcome s, st2, note (ESettled r (outcome s)) st2 log2)
  | JsonPromise r =>
      let s := on_json w (events log) r in
      let '(st2, log2) := apply_edits (meanwhile s) st log in
      (outcome s, st2, note (EJsonSettled r (outcome s)) st2 log2)
  end.

(** One operation: its answer, the new state and the extended log.  The
    state setters take effect at once; [fetch] and [json()] issue their
    request and return. *)
Definition exec {X : Type} (w : World) (op : Eff X) (st : AppState) (log : Log)
  : X * AppState * Log :=
  match op in Eff X return X * AppState * Log with
  | PreventDefault e => (tt, st, note (EPreventDefault e) st log)
  | SetQuestion q =>
      let st' := set_question q st in (tt, st', note (ESetQuestion q) st' log)
  | SetResponse v =>
      let st' := set_response v st in (tt, st', note (ESetResponse v) st' log)
  | SetLoading b =>
      let st' := set_loading b st in (tt, st', note (ESetLoading b) st' log)
  | SetFile s =>
      let st' := set_file s st in (tt, st', note (ESetFile s) st' log)
  | Fetch r => (FetchPromise r, st, note (ERequest r) st log)
  | ResponseJson r => (JsonPromise r, st, note (EJsonRead r) st log)
  | Await p => exec_await w p st log
  | ConsoleError args => (tt, st, note (EConsoleError args) st log)
  end.

Fixpoint run {R : Type} (w : World) (p : Prog R) (st : AppState) (log : Log)
  : Completion R * AppState * Log :=
  match p with
  | Ret r => (Normal r, st, log)
  | Throw e => (Abrupt e, st, log)
  | Vis op k =>
      let '(x, st', log') := exec w op st log in
      run w (k x) st' log'
  end.

(** A submit event of the form: the handler of the current render runs
    on the current state, with an empty log. *)
Definition submit (w : World) (st : AppState) : Completion unit * AppState * Log :=
  run w (V1.handleSubmit st FormSubmit) st [].

Definition result_of (r : Completion unit * AppState * Log) : Completion unit :=
  fst (fst r).
Definition state_of (r : Completion unit * AppState * Log) : AppState :=
  snd (fst r).
Definition log_of (r : Completion unit * AppState * Log) : Log := snd r.

(** ** Facts about runs *)

Fixpoint edits_state (eds : list Edit) (st : AppState) : AppState :=
  match eds with
  | [] => st
  | ed :: rest => edits_state rest (apply_edit ed st)
  end.

Fixpoint edits_log (eds : list Edit) (st : AppState) : Log :=
  match eds with
  | [] => []
  | ed :: rest =>
      {| ev := EUser ed; at_state := apply_edit ed st |}
        :: edits_log rest (apply_edit ed st)
  end.

Lemma apply_edits_eq (eds : list Edit) (st : AppState) (log : Log) :
  apply_edits eds st log = (edits_state eds st, log ++ edits_log eds st).
Proof.
  revert st log; induction eds as [|ed rest IH]; intros st log; simpl.
  - now rewrite app_nil_r.
  - rewrite IH. unfold note. now rewrite <- app_assoc.
Qed.

Lemma edits_state_loading (eds : list Edit) (st : AppState) :
  loading (edits_state eds st) = loading st.
Proof.
  revert st; induction eds as [|[e|e] rest IH]; intros st; simpl; auto;
    now rewrite IH.
Qed.

Lemma edits_state_response (eds : list Edit) (st : AppState) :
  response (edits_state eds st) = response st.
Proof.
  revert st; induction eds as [|[e|e] rest IH]; intros st; simpl; auto;
    now rewrite IH.
Qed.

Lemma events_edits_log (eds : list Edit) (st : AppState) :
  events (edits_log eds st) = map EUser eds.
Proof.
  revert st; induction eds as [|ed rest IH]; intros st; simpl; auto.
  now rewrite IH.
Qed.

Lemma edits_log_loading (eds : list Edit) (st : AppState) (en : Entry) :
  In en (edits_log eds st) -> loading (at_state en) = loading st.
Proof.
  revert st; induction eds as [|ed rest IH]; intros st; simpl; [tauto|].
  intros [<-|H]; simpl.
  - now destruct ed.
  - rewrite (IH _ H). now destruct ed.
Qed.

Lemma events_note (e : Event) (st : AppState) (log : Log) :
  events (note e st log) = events log ++ [e].
Proof. unfold events, note. now rewrite map_app. Qed.

Lemma events_app (a b : Log) : events (a ++ b) = events a ++ events b.
Proof. apply map_app. Qed.

Lemma in_note (en : Entry) (e : Event) (st : AppState) (log : Log) :
  In en (note e st log) <-> In en log \/ en = {| ev := e; at_state := st |}.
Proof.
  unfold note. rewrite in_app_iff. simpl. intuition congruence.
Qed.

(** The semantics of sequencing, [catch] and [finally]. *)
Lemma run_bind {A B : Type} (w : World) (m : Prog A) (f : A -> Prog B)
  (st : AppState) (log : Log) :
  run w (bind m f) st log =
  match run w m st log with
  | (Normal a, st', log') => run w (f a) st' log'
  | (Abrupt e, st', log') => (Abrupt e, st', log')
  end.
Proof.
  revert st log; induction m as [a|e|X op k IH]; intros st log; simpl; auto.
  destruct (exec w op st log) as [[x st'] log']. apply IH.
Qed.

Lemma run_try_catch {A : Type} (w : World) (m : Prog A) (h : Exn -> Prog A)
  (st : AppState) (log : Log) :
  run w (try_catch m h) st log =
  match run w m st log with
  | (Normal a, st', log') => (Normal a, st', log')
  | (Abrupt e, st', log') => run w (h e) st' log'
  end.
Proof.
  revert st log; induction m as [a|e|X op k IH]; intros st log; simpl; auto.
  destruct (exec w op st log) as [[x st'] log']. apply IH.
Qed.

Lemma run_try_finally {A : Type} (w : World) (m : Prog A) (f : Prog unit)
  (st : AppState) (log : Log) :
  run w (try_finally m f) st log =
  match run w m st log with
  | (c, st', log') =>
      match run w f st' log' with
      | (Normal _, st'', log'') => (c, st'', log'')
      | (Abrupt e, st'', log'') => (Abrupt e, st'', log'')
      end
  end.
Proof.
  revert st log; induction m as [a|e|X op k IH]; intros st log; simpl.
  - rewrite run_bind. now destruct (run w f st log) as [[[u|e] st'] log'].
  - rewrite run_bind. now destruct (run w f st log) as [[[u|e'] st'] log'].
  - destruct (exec w op st log) as [[x st'] log']. apply IH.
Qed.

Lemma in_user_events (e : Event) (eds : list Edit) :
  In e (map EUser eds) -> exists ed, e = EUser ed.
Proof. rewrite in_map_iff. intros [ed [<- _]]. now exists ed. Qed.

#[local] Arguments lit : simpl never.
#[local] Arguments JSON_stringify : simpl never.
#[local] Arguments note : simpl never.
#[local] Arguments get_property : simpl never.

(** Case analysis on what the world answers at the next await. *)
Ltac settle :=
  match goal with
  | |- context [on_fetch ?w ?h ?r] =>
      let eds := fresh "eds" in
      let c := fresh "c" in
      destruct (on_fetch w h r) as [eds [c|c]] eqn:?; cbn [meanwhile outcome]
  | |- context [on_json ?w ?h ?r] =>
      let eds := fresh "eds" in
      let c := fresh "c" in
      destruct (on_json w h r) as [eds [c|c]] eqn:?; cbn [meanwhile outcome]
  | |- context [get_property ?d ?n] =>
      destruct (get_property d n) eqn:?
  end.

Ltac step :=
  first [ rewrite apply_edits_eq | settle ];
  cbn -[note lit JSON_stringify get_property].

(** Every path of [submit w st], one goal per path. *)
Ltac submit_paths st :=
  unfold submit, V1.handleSubmit, try_catch_finally;
  destruct (file st) eqn:?;
  cbn -[note lit JSON_stringify get_property];
  repeat step;
  unfold log_of, state_of, result_of;
  cbn [fst snd].

(** Membership of an event in an explicit log. *)
Ltac in_events H :=
  repeat (rewrite ?events_note, ?events_app, ?events_edits_log, ?in_app_iff in H;
          simpl in H);
  repeat match type of H with
         | _ \/ _ => destruct H as [H|H]
         | False => contradiction
         | In _ (map EUser _) =>
             apply in_user_events in H; destruct H as [? H]
         end;
  try discriminate H.

(** Find an event in an explicit list. *)
Ltac find_in :=
  lazymatch goal with
  | |- In _ (_ ++ _) => apply in_or_app; first [ left; find_in | right; find_in ]
  | |- In _ (_ :: _) => first [ left; reflexivity | right; find_in ]
  end.

Ltac in_log H :=
  repeat (rewrite ?in_note, ?in_app_iff in H; simpl in H);
  repeat match type of H with
         | _ \/ _ => destruct H as [H|H]
         | False => contradiction
         end.

(** ** The error path of [handleSubmit] *)

(** Some awaited promise of the run was rejected: a [fetch], or the
    [json()] decoding of the [/query] response. *)
Definition rejected (log : Log) : Prop :=
  (exists r e, In (ESettled r (Abrupt e)) (events log)) \/
  (exists r e, In (EJsonSettled r (Abrupt e)) (events log)).

(** The handler never completes abruptly, whatever the world does. *)
Lemma submit_returns (w : World) (st : AppState) :
  result_of (submit w st) = Normal tt.
Proof. submit_paths st; reflexivity. Qed.

(** C1: whenever a fetch or the JSON decoding of the /query response
    throws during an invocation of handleSubmit, the response state ends
    as the fixed apology string, that string was set through setResponse,
    and the handler itself completes normally: no exception leaves it. *)
Theorem handleSubmit_error_fallback (w : World) (st : AppState) :
  rejected (log_of (submit w st)) ->
  response (state_of (submit w st))
    = VString (lit "Sorry, there was an error processing your request.") /\
  In (ESetResponse (VString (lit error_message))) (events (log_of (submit w st))) /\
  result_of (submit w st) = Normal tt.
Proof.
  submit_paths st;
    intros [(r0 & e0 & H)|(r0 & e0 & H)];
    try (split; [reflexivity|split; [|reflexivity]];
         rewrite ?events_note, ?in_app_iff; simpl; tauto).
  all: in_events H.
Qed.

(** Worlds used as concrete inputs. *)
Definition failed_to_fetch : Exn :=
  {| exn_name := "TypeError"; exn_message := "Failed to fetch" |}.

(** The backend is unreachable: every fetch rejects. *)
Definition offline : World :=
  {| on_fetch := fun _ _ => {| meanwhile := []; outcome := Abrupt failed_to_fetch |};
     on_json := fun _ _ => {| meanwhile := []; outcome := Normal JNull |} |}.

(** The backend answers every request with status 200 and the JSON [j]. *)
Definition answering (j : json) : World :=
  {| on_fetch := fun _ _ =>
       {| meanwhile := [];
          outcome := Normal {| resp_status := 200; resp_body := [] |} |};
     on_json := fun _ _ => {| meanwhile := []; outcome := Normal j |} |}.

Definition sample_file : File :=
  {| file_name := lit "faq.txt"; file_type := lit "text/plain";
     file_bytes := [72; 105]%N |}.

Definition asking (q : string) (slot : FileSlot) : AppState :=
  {| question := lit q; response := VString (lit "");
     loading := false; file := slot |}.

Lemma handleSubmit_error_fallback_witness :
  rejected (log_of (submit offline (asking "fees?" FileNull))) /\
  response (state_of (submit offline (asking "fees?" FileNull)))
    = VString (lit "Sorry, there was an error processing your request.").
Proof.
  assert (H : rejected (log_of (submit offline (asking "fees?" FileNull)))).
  { left. eexists _, failed_to_fetch. vm_compute. right; right; right; left.
    reflexivity. }
  split; [exact H|].
  exact (proj1 (handleSubmit_error_fallback offline (asking "fees?" FileNull) H)).
Defined.

(** ** The loading flag *)

(** Events that belong to the time a request is under way: it is issued,
    the user edits the form while it is pending, it settles. *)
Definition during_request (e : Event) : bool :=
  match e with
  | ERequest _ | ESettled _ _ | EJsonRead _ | EJsonSettled _ _ | EUser _ => true
  | _ => false
  end.

Definition is_blank (q : jsstring) : bool := negb (truthy (VString (trim q))).

(** When the invocation is over, loading is false and only a blank
    question keeps the button disabled. *)
Lemma loading_is_reset (w : World) (st : AppState) :
  loading (state_of (submit w st)) = false /\
  V1.submit_disabled (state_of (submit w st))
    = is_blank (question (state_of (submit w st))).
Proof. submit_paths st; split; reflexivity. Qed.

Definition is_question_edit (ed : Edit) : bool :=
  match ed with Typed _ => true | Chose _ => false end.

Definition no_question_edit (eds : list Edit) : bool :=
  forallb (fun ed => negb (is_question_edit ed)) eds.

(** Every batch of edits the user makes while a request is pending
    passes the test [ok]. *)
Definition meanwhile_all (ok : list Edit -> bool) (w : World) : Prop :=
  (forall h r, ok (meanwhile (on_fetch w h r)) = true) /\
  (forall h r, ok (meanwhile (on_json w h r)) = true).

(** The user leaves the textarea alone while requests are pending. *)
Definition keeps_question (w : World) : Prop := meanwhile_all no_question_edit w.

Lemma edits_state_question (eds : list Edit) (st : AppState) :
  no_question_edit eds = true -> question (edits_state eds st) = question st.
Proof.
  revert st; induction eds as [|[e|e] rest IH]; intros st H; simpl in *;
    try discriminate; auto.
  now rewrite IH.
Qed.

(** Bring the law [Hk : meanwhile_all ok w] to every batch of edits of
    the current path. *)
Ltac use_law Hk :=
  repeat match goal with
    | E : on_fetch ?w ?h ?r = {| meanwhile := ?eds; outcome := _ |} |- _ =>
        lazymatch goal with
        | _ : _ eds = true |- _ => fail
        | _ => let K := fresh "K" in
               pose proof (proj1 Hk h r) as K; rewrite E in K;
               cbn [meanwhile] in K
        end
    | E : on_json ?w ?h ?r = {| meanwhile := ?eds; outcome := _ |} |- _ =>
        lazymatch goal with
        | _ : _ eds = true |- _ => fail
        | _ => let K := fresh "K" in
               pose proof (proj2 Hk h r) as K; rewrite E in K;
               cbn [meanwhile] in K
        end
    end.

(** [handleSubmit] itself never changes the question. *)
Lemma submit_keeps_question (w : World) (st : AppState) :
  keeps_question w -> question (state_of (submit w st)) = question st.
Proof.
  intros Hk. submit_paths st; use_law Hk; cbn;
    repeat (rewrite edits_state_question by assumption); reflexivity.
Qed.

(** A form that could be submitted can be submitted again once the
    attempt is over, unless the user blanked the question meanwhile. *)
Lemma submit_reenables_button (w : World) (st : AppState) :
  keeps_question w ->
  V1.submit_disabled st = false ->
  V1.submit_disabled (state_of (submit w st)) = false.
Proof.
  intros Hk Hd.
  destruct (loading_is_reset w st) as [Hl Hb].
  rewrite Hb, (submit_keeps_question st Hk).
  unfold V1.submit_disabled in Hd. apply orb_false_elim in Hd. apply Hd.
Qed.

(** The user erases the textarea while the request is pending; the
    backend then answers. *)
Definition erasing : World :=
  {| on_fetch := fun _ _ =>
       {| meanwhile := [Typed {| target_value := lit "" |}];
          outcome := Normal {| resp_status := 200; resp_body := [] |} |};
     on_json := fun _ _ =>
       {| meanwhile := [];
          outcome := Normal (JObject [(lit "answer", JString (lit "ok"))]) |} |}.



(** ** The order of the two requests *)

(** The request [handleSubmit] builds for a selected file, and the one it
    builds for the question. *)
Definition add_document_request (f : File) : Request :=
  {| url := add_document_url; method := "POST"; headers := [];
     body := FormBody [("doc", f)] |}.

Definition query_request (q : jsstring) : Request :=
  {| url := query_url; method := "POST";
     headers := [("Content-Type", "application/json")];
     body := TextBody (JSON_stringify [(lit "question", q)]) |}.

Definition is_request (e : Event) : bool :=
  match e with ERequest _ => true | _ => false end.

(** Requests issued and not yet settled after a sequence of events. *)
Definition flight_step (n : nat) (e : Event) : nat :=
  match e with
  | ERequest _ => S n
  | ESettled _ _ => pred n
  | _ => n
  end.

Definition in_flight (evs : list Event) : nat := fold_left flight_step evs 0.

(** At most one request in flight from [n] on, along the whole of [evs]. *)
Fixpoint one_at_a_time (n : nat) (evs : list Event) : bool :=
  Nat.leb n 1 &&
  match evs with
  | [] => true
  | e :: rest => one_at_a_time (flight_step n e) rest
  end.

Lemma one_at_a_time_prefix (evs : list Event) (n : nat) :
  one_at_a_time n evs = true ->
  forall pre post, evs = pre ++ post -> fold_left flight_step pre n <= 1.
Proof.
  revert n; induction evs as [|e rest IH]; intros n H pre post E.
  - destruct pre; [|discriminate]. simpl in *.
    apply andb_prop in H. now apply Nat.leb_le.
  - simpl in H. apply andb_prop in H. destruct H as [Hn Hrest].
    destruct pre as [|e' pre]; simpl.
    + now apply Nat.leb_le.
    + injection E as <- E. now apply (IH _ Hrest pre post).
Qed.

Lemma one_at_a_time_users (eds : list Edit) (rest : list Event) (n : nat) :
  one_at_a_time n (map EUser eds ++ rest) = one_at_a_time n rest.
Proof.
  induction eds as [|ed eds IH]; simpl; auto.
  rewrite IH. destruct rest; simpl; now rewrite andb_assoc, andb_diag.
Qed.

Lemma split_nil (pre post : list Event) (e : Event) :
  [] = pre ++ e :: post -> False.
Proof. now destruct pre. Qed.

Lemma split_cons (a e : Event) (l pre post : list Event) :
  a :: l = pre ++ e :: post ->
  (pre = [] /\ a = e /\ l = post) \/
  (exists pre', pre = a :: pre' /\ l = pre' ++ e :: post).
Proof.
  destruct pre as [|b pre]; simpl; intros E; injection E as -> ->.
  - now left.
  - right. now exists pre.
Qed.

Lemma split_users (eds : list Edit) (e : Event) (l pre post : list Event) :
  (forall ed, e <> EUser ed) ->
  map EUser eds ++ l = pre ++ e :: post ->
  exists pre', pre = map EUser eds ++ pre' /\ l = pre' ++ e :: post.
Proof.
  intros Hne. revert pre; induction eds as [|ed eds IH]; intros pre E; simpl in *.
  - now exists pre.
  - apply split_cons in E. destruct E as [(_ & <- & _)|(pre' & -> & E)].
    + now destruct (Hne ed).
    + destruct (IH _ E) as (p & -> & ->). now exists p.
Qed.

(** The events of an explicit log, as one right-nested list. *)
Ltac flatten_events :=
  repeat first [ rewrite events_note | rewrite events_app
               | rewrite events_edits_log ];
  rewrite <- ?app_assoc; cbn [app events map ev].

(** Walk a split [explicit list = pre ++ ERequest q :: post] down the list. *)
Ltac walk_split E :=
  repeat first
    [ apply split_nil in E; contradiction
    | apply split_users in E;
      [ let p := fresh "pre" in destruct E as (p & -> & E) | discriminate ]
    | apply split_cons in E;
      let p := fresh "pre" in
      destruct E as [(-> & E & _)|(p & -> & E)];
      [ try discriminate E | ] ].

(** [file != null]: JavaScript's loose comparison holds [undefined] equal
    to [null]. *)
Definition loosely_null (s : FileSlot) : bool :=
  match s with
  | FileNull | FileUndefined => true
  | Picked _ => false
  end.

Lemma loosely_null_truthy (s : FileSlot) :
  loosely_null s = negb (file_truthy s).
Proof. now destruct s. Qed.

(** Without a file, nothing is sent to /add-document. *)
Lemma no_upload_without_file (w : World) (st : AppState) (r : Request) :
  loosely_null (file st) = true ->
  In (ERequest r) (events (log_of (submit w st))) -> url r = query_url.
Proof.
  intros Hn. submit_paths st; try discriminate Hn; intros H; in_events H;
    now injection H as <-.
Qed.

(** C2: when the file state is not null (a File is selected), handleSubmit
    issues the POST to /add-document as its first request, and a POST to
    /query is issued only after the add-document request has settled; at
    no moment of the run is more than one request in flight. *)
Theorem upload_settles_before_query (w : World) (st : AppState) :
  loosely_null (file st) = false ->
  let evs := events (log_of (submit w st)) in
  exists f,
    file st = Picked f /\
    (exists pre post,
        evs = pre ++ ERequest (add_document_request f) :: post /\
        forallb (fun e => negb (is_request e)) pre = true) /\
    (forall pre q post,
        evs = pre ++ ERequest q :: post -> url q = query_url ->
        exists c, In (ESettled (add_document_request f) c) pre) /\
    (forall pre post, evs = pre ++ post -> in_flight pre <= 1).
Proof.
  intros Hf. submit_paths st; try discriminate Hf.
  all: cbv zeta; flatten_events; eexists; split; [reflexivity|]; split; [|split].
  all: try (eexists [_; _], _; split; reflexivity).
  all: try (intros pre post E;
            refine (one_at_a_time_prefix _ _ _ _ E);
            repeat (cbn; rewrite ?one_at_a_time_users); reflexivity).
  all: intros pre q post E Hq; walk_split E.
  all: try (injection E as <-; discriminate Hq).
  all: eexists; find_in.
Qed.

Definition answer_ok : json := JObject [(lit "answer", JString (lit "ok"))].

Lemma upload_settles_before_query_witness :
  loosely_null (file (asking "fees?" (Picked sample_file))) = false /\
  exists f,
    file (asking "fees?" (Picked sample_file)) = Picked f /\
    in_flight (events (log_of (submit (answering answer_ok)
                                 (asking "fees?" (Picked sample_file))))) <= 1.
Proof.
  split; [reflexivity|].
  destruct (upload_settles_before_query (answering answer_ok)
              (asking "fees?" (Picked sample_file)) eq_refl)
    as (f & Hf & _ & _ & Hone).
  exists f. split; [exact Hf|].
  apply (Hone _ []). symmetry. apply app_nil_r.
Defined.

(** ** The body of the query request *)

(** Every request to /query in a run is the one built from the question
    of the submitting render. *)
Lemma query_requests_of_run (w : World) (st : AppState) (r : Request) :
  In (ERequest r) (events (log_of (submit w st))) -> url r = query_url ->
  r = query_request (question st).
Proof.
  submit_paths st; intros H Hq; in_events H;
    injection H as <-; try reflexivity; discriminate Hq.
Qed.

(** C7: every request that handleSubmit sends to /query is a POST whose
    only header is the JSON content type and whose body is the
    serialisation of the object with the single property question, holding
    the question text of the render that submitted: read back, the body is
    that one property and nothing else, so no top-k parameter is sent in
    the URL, the headers or the body.  That request is sent in every
    submission whose upload did not reject. *)
Theorem query_carries_only_question (w : World) (st : AppState) :
  let evs := events (log_of (submit w st)) in
  (forall r, In (ERequest r) evs -> url r = query_url ->
             r = query_request (question st)) /\
  (forall r t, In (ERequest r) evs -> url r = query_url ->
               body r = TextBody t ->
               parse_single_property t = Some (lit "question", question st)) /\
  (In (ERequest (query_request (question st))) evs \/
   exists f e, In (ESettled (add_document_request f) (Abrupt e)) evs) /\
  body (query_request (question st))
    = TextBody (lit "{" ++ QuoteJSONString (lit "question") ++ lit ":"
                  ++ QuoteJSONString (question st) ++ lit "}").
Proof.
  cbv zeta. split; [|split; [|split; [|reflexivity]]].
  - intros r. apply query_requests_of_run.
  - intros r t H Hq Hb. rewrite (query_requests_of_run _ _ _ H Hq) in Hb.
    injection Hb as <-. apply parse_stringify_single.
  - submit_paths st; flatten_events;
      first [ left; find_in | right; eexists _, _; find_in ].
Qed.

Lemma sample_query_is_sent :
  In (ERequest (query_request (lit "fees?")))
     (events (log_of (submit (answering answer_ok) (asking "fees?" FileNull)))).
Proof. vm_compute. right; right; left. reflexivity. Qed.

(** A run against a backend that answers: the whole log, and the answer
    shown. *)
Example submit_answered :
  events (log_of (submit (answering answer_ok) (asking "fees?" (Picked sample_file))))
  = [EPreventDefault FormSubmit;
     ESetLoading true;
     ERequest (add_document_request sample_file);
     ESettled (add_document_request sample_file)
       (Normal {| resp_status := 200; resp_body := [] |});
     ERequest (query_request (lit "fees?"));
     ESettled (query_request (lit "fees?"))
       (Normal {| resp_status := 200; resp_body := [] |});
     EJsonRead {| resp_status := 200; resp_body := [] |};
     EJsonSettled {| resp_status := 200; resp_body := [] |} (Normal answer_ok);
     ESetResponse (VString (lit "ok"));
     ESetLoading false] /\
  response (state_of (submit (answering answer_ok)
                        (asking "fees?" (Picked sample_file))))
  = VString (lit "ok").
Proof. split; reflexivity. Qed.

(** The body sent for the question [fees?]. *)
Example query_body_sample :
  body (query_request (lit "fees?"))
  = TextBody ([0x7B; 0x22] ++ lit "question" ++ [0x22; 0x3A; 0x22]
                ++ lit "fees?" ++ [0x22; 0x7D])%N.
Proof. reflexivity. Qed.

(** A reply of [null] makes [data.answer] throw; the catch block handles
    that too. *)
Example submit_null_reply :
  response (state_of (submit (answering JNull) (asking "fees?" FileNull)))
  = VString (lit error_message) /\
  result_of (submit (answering JNull) (asking "fees?" FileNull)) = Normal tt.
Proof. split; reflexivity. Qed.

(** A reply without an [answer] property sets the response to
    [undefined]. *)
Example submit_reply_without_answer :
  response (state_of (submit (answering (JObject [])) (asking "fees?" FileNull)))
  = Undefined.
Proof. reflexivity. Qed.

(** ** The file state across submissions *)

Definition is_file_edit (ed : Edit) : bool :=
  match ed with Chose _ => true | Typed _ => false end.

Definition no_file_edit (eds : list Edit) : bool :=
  forallb (fun ed => negb (is_file_edit ed)) eds.

(** The user leaves the file input alone while requests are pending. *)
Definition keeps_file_input (w : World) : Prop := meanwhile_all no_file_edit w.

(** What the user does with the form, one action after another. *)
Inductive Action : Type :=
| UserEdit (ed : Edit)
| ClickSubmit (w : World).

(** A click on a disabled submit button does nothing; otherwise the form
    is submitted and [handleSubmit] runs to its end.  The log of every
    invocation is kept. *)
Definition dispatch (a : Action) (st : AppState) : AppState * list Log :=
  match a with
  | UserEdit ed => (apply_edit ed st, [])
  | ClickSubmit w =>
      if V1.submit_disabled st then (st, [])
      else (state_of (submit w st), [log_of (submit w st)])
  end.

Fixpoint session (acts : list Action) (st : AppState) : AppState * list Log :=
  match acts with
  | [] => (st, [])
  | a :: rest =>
      let '(st1, logs1) := dispatch a st in
      let '(st2, logs2) := session rest st1 in
      (st2, logs1 ++ logs2)
  end.

(** The action leaves the file input alone. *)
Definition leaves_file_input (a : Action) : Prop :=
  match a with
  | UserEdit ed => is_file_edit ed = false
  | ClickSubmit w => keeps_file_input w
  end.

Definition file_input_untouched (acts : list Action) : Prop :=
  Forall leaves_file_input acts.

(** The change handlers do what [apply_edit] says. *)
Lemma handleFileChange_run (w : World) (st : AppState) (e : FileChangeEvent) :
  run w (V1.handleFileChange e) st [] =
  (Normal tt, apply_edit (Chose e) st,
   [{| ev := ESetFile (first_file (target_files e));
       at_state := apply_edit (Chose e) st |}]).
Proof. reflexivity. Qed.

Lemma question_change_run (w : World) (st : AppState) (e : TextChangeEvent) :
  run w (setQuestion (target_value e)) st [] =
  (Normal tt, apply_edit (Typed e) st,
   [{| ev := ESetQuestion (target_value e);
       at_state := apply_edit (Typed e) st |}]).
Proof. reflexivity. Qed.

Lemma edits_state_file (eds : list Edit) (st : AppState) :
  no_file_edit eds = true -> file (edits_state eds st) = file st.
Proof.
  revert st; induction eds as [|[e|e] rest IH]; intros st H; simpl in *;
    try discriminate; auto.
  now rewrite IH.
Qed.

(** [handleSubmit] has no [setFile] on any path. *)
Lemma submit_never_sets_file (w : World) (st : AppState) (s : FileSlot) :
  ~ In (ESetFile s) (events (log_of (submit w st))).
Proof. submit_paths st; intros H; in_events H. Qed.

Lemma submit_keeps_file (w : World) (st : AppState) :
  keeps_file_input w -> file (state_of (submit w st)) = file st.
Proof.
  intros Hk. submit_paths st; use_law Hk; cbn;
    repeat (rewrite edits_state_file by assumption); cbn; assumption.
Qed.

Definition uploads_first (f : File) (log : Log) : Prop :=
  exists pre post,
    events log = pre ++ ERequest (add_document_request f) :: post /\
    forallb (fun e => negb (is_request e)) pre = true.

Lemma submit_uploads_first (w : World) (st : AppState) (f : File) :
  file st = Picked f -> uploads_first f (log_of (submit w st)).
Proof.
  intros Hf. submit_paths st; try discriminate Hf; injection Hf as ->.
  all: unfold uploads_first; flatten_events; eexists [_; _], _; split; reflexivity.
Qed.

(** What every invocation does with the selected file [f]. *)
Definition reuploads (f : File) (log : Log) : Prop :=
  uploads_first f log /\ forall s, ~ In (ESetFile s) (events log).

Lemma dispatch_keeps_file (a : Action) (st : AppState) (f : File) :
  file st = Picked f -> leaves_file_input a ->
  file (fst (dispatch a st)) = Picked f /\
  Forall (reuploads f) (snd (dispatch a st)).
Proof.
  intros Hf Ha. destruct a as [[e|e]|w]; simpl in *.
  - now split.
  - discriminate Ha.
  - destruct (V1.submit_disabled st); simpl; [now split|].
    split; [now rewrite submit_keeps_file|].
    constructor; [|constructor].
    split; [now apply submit_uploads_first|].
    intros s. apply submit_never_sets_file.
Qed.

Lemma session_keeps_file (acts : list Action) (st : AppState) (f : File) :
  file st = Picked f -> file_input_untouched acts ->
  file (fst (session acts st)) = Picked f /\
  Forall (reuploads f) (snd (session acts st)).
Proof.
  intros Hf Hu. revert st Hf.
  induction Hu as [|a rest Ha Hrest IH]; intros st Hf; simpl.
  - now split.
  - destruct (dispatch_keeps_file a st Hf Ha) as [Hf1 Hl1].
    destruct (dispatch a st) as [st1 logs1]; simpl in *.
    destruct (IH st1 Hf1) as [Hf2 Hl2].
    destruct (session rest st1) as [st2 logs2]; simpl in *.
    split; [exact Hf2|]. apply Forall_app. now split.
Qed.

(** C10: handleSubmit never sets the file state.  From a state with a file
    selected, along any sequence of question edits and submissions in which
    the user leaves the file input alone, the same file stays selected, and
    every invocation of handleSubmit has no setFile and uploads that file
    to /add-document as its first request; handleFileChange is what
    changes the file state, and it stores the first file of the selection. *)
Theorem file_kept_across_submissions
  (acts : list Action) (st : AppState) (f : File) :
  file st = Picked f ->
  file_input_untouched acts ->
  file (fst (session acts st)) = Picked f /\
  Forall (reuploads f) (snd (session acts st)) /\
  (forall w e st0,
      file (state_of (run w (V1.handleFileChange e) st0 []))
        = first_file (target_files e)).
Proof.
  intros Hf Hu. destruct (session_keeps_file st Hf Hu) as [H1 H2].
  split; [exact H1|]. split; [exact H2|]. reflexivity.
Qed.

Definition two_submissions : list Action :=
  [ClickSubmit (answering answer_ok);
   UserEdit (Typed {| target_value := lit "limits?" |});
   ClickSubmit offline].

Lemma file_kept_across_submissions_witness :
  file (asking "fees?" (Picked sample_file)) = Picked sample_file /\
  file_input_untouched two_submissions /\
  file (fst (session two_submissions (asking "fees?" (Picked sample_file))))
    = Picked sample_file.
Proof.
  assert (Hu : file_input_untouched two_submissions).
  { repeat constructor. }
  split; [reflexivity|split; [exact Hu|]].
  exact (proj1 (@file_kept_across_submissions two_submissions
                  (asking "fees?" (Picked sample_file)) sample_file
                  eq_refl Hu)).
Defined.

(** Both submissions of the sample session did run and did upload. *)
Lemma two_submissions_upload_twice :
  List.length (snd (session two_submissions (asking "fees?" (Picked sample_file)))) = 2.
Proof. vm_compute. reflexivity. Qed.

(** ** The two versions of the component *)

(** C8: the two versions of App in the file have the same handleSubmit:
    the same program, hence the same requests, bodies, order and state
    transitions in every world from every state; handleFileChange is the
    same too, and the rendered trees are equal once every className is
    removed, while the trees themselves differ. *)
Theorem versions_agree :
  (forall props e, V1.handleSubmit props e = V2.handleSubmit props e) /\
  (forall w props e st log,
      run w (V1.handleSubmit props e) st log
      = run w (V2.handleSubmit props e) st log) /\
  (forall e, V1.handleFileChange e = V2.handleFileChange e) /\
  (forall props,
      strip_presentation (V1.App props) = strip_presentation (V2.App props)) /\
  (forall props, V1.App props <> V2.App props).
Proof.
  split; [reflexivity|]. split; [reflexivity|]. split; [reflexivity|]. split.
  - intros props. unfold V1.App, V2.App.
    destruct (loading props), (truthy (response props)); reflexivity.
  - intros props H. unfold V1.App, V2.App in H. discriminate H.
Qed.

(** * More about the handlers *)

(** ** The requests of one submission *)

(** The requests issued along a sequence of events, in order. *)
Fixpoint requests_of (evs : list Event) : list Request :=
  match evs with
  | [] => []
  | ERequest r :: rest => r :: requests_of rest
  | _ :: rest => requests_of rest
  end.

Lemma requests_of_users (eds : list Edit) (rest : list Event) :
  requests_of (map EUser eds ++ rest) = requests_of rest.
Proof. induction eds as [|ed eds IH]; simpl; auto. Qed.

(** The requests of an explicit, flattened event list. *)
Ltac count_requests :=
  repeat (cbn [requests_of]; rewrite ?requests_of_users).

(** X1: handleSubmit issues at most two requests, both POSTs of the two
    fixed shapes: without a file (null or undefined) exactly the query;
    with a file the upload first, followed by the query unless the upload
    was rejected. *)
Theorem requests_by_file_state (w : World) (st : AppState) :
  let reqs := requests_of (events (log_of (submit w st))) in
  match file st with
  | Picked f =>
      reqs = [add_document_request f; query_request (question st)] \/
      (reqs = [add_document_request f] /\
       exists e, In (ESettled (add_document_request f) (Abrupt e))
                    (events (log_of (submit w st))))
  | FileNull | FileUndefined => reqs = [query_request (question st)]
  end.
Proof.
  submit_paths st; cbv zeta; flatten_events; count_requests;
    try reflexivity; try (left; reflexivity).
  all: right; split; [reflexivity|]; eexists; find_in.
Qed.

(** X2: when the upload is rejected the question is not sent at all:
    the upload is the only request, no reply is decoded, and the response
    ends as the apology. *)
Theorem rejected_upload_skips_query (w : World) (st : AppState)
  (r : Request) (e : Exn) :
  url r = add_document_url ->
  In (ESettled r (Abrupt e)) (events (log_of (submit w st))) ->
  requests_of (events (log_of (submit w st))) = [r] /\
  (forall resp, ~ In (EJsonRead resp) (events (log_of (submit w st)))) /\
  response (state_of (submit w st)) = VString (lit error_message).
Proof.
  intros Hu. submit_paths st; intros H; in_events H;
    injection H as <- <- || (injection H as <-); try discriminate Hu.
  all: split; [flatten_events; count_requests; reflexivity|].
  all: split; [|reflexivity].
  all: intros resp H; in_events H.
Qed.

(** X3: the upload's reply is never inspected: whatever response the
    upload resolves with, whatever its HTTP status, the query is sent
    next and both requests are made. *)
Theorem resolved_upload_is_ignored (w : World) (st : AppState)
  (r : Request) (resp : Response) :
  url r = add_document_url ->
  In (ESettled r (Normal resp)) (events (log_of (submit w st))) ->
  requests_of (events (log_of (submit w st)))
    = [r; query_request (question st)].
Proof.
  intros Hu. submit_paths st; intros H; in_events H;
    injection H as <- <-; try discriminate Hu.
  all: flatten_events; count_requests; reflexivity.
Qed.

(** ** The reply to the query *)

(** X4: the decoded reply alone decides what is shown: when the body of
    the query response decodes to [data] and [data.answer] can be read,
    the response state ends as [data.answer], [undefined] when the
    property is missing, whatever the HTTP status was; nothing is logged
    to the console. *)
Theorem answer_is_shown (w : World) (st : AppState)
  (resp : Response) (data : json) (v : value) :
  In (EJsonSettled resp (Normal data)) (events (log_of (submit w st))) ->
  get_property data "answer" = Normal v ->
  response (state_of (submit w st)) = v /\
  In (ESetResponse v) (events (log_of (submit w st))) /\
  (forall args, ~ In (EConsoleError args) (events (log_of (submit w st)))).
Proof.
  submit_paths st; intros H Hv; in_events H; injection H as <- <-.
  all: try congruence.
  all: assert (x = v) by congruence; subst x.
  all: split; [reflexivity|split; [flatten_events; find_in|]].
  all: intros args H; in_events H.
Qed.

(** X5: a reply that decodes to [null] makes the read of [data.answer]
    throw; the TypeError is caught like a network failure: it is logged
    and the apology is shown. *)
Theorem null_reply_is_an_error (w : World) (st : AppState) (resp : Response) :
  In (EJsonSettled resp (Normal JNull)) (events (log_of (submit w st))) ->
  response (state_of (submit w st)) = VString (lit error_message) /\
  In (EConsoleError
        [LogText "Error:";
         LogError {| exn_name := "TypeError";
                     exn_message := "Cannot read properties of null" |}])
     (events (log_of (submit w st))) /\
  result_of (submit w st) = Normal tt.
Proof.
  submit_paths st; intros H; in_events H; injection H as <- Hd;
    try discriminate Hd; subst.
  all: try discriminate.
  all: match goal with E : get_property JNull _ = _ |- _ =>
         cbv in E; injection E as <- end.
  all: split; [reflexivity|split; [flatten_events; find_in|reflexivity]].
Qed.

(** ** What is logged and what is set *)

Definition is_console_error (e : Event) : bool :=
  match e with EConsoleError _ => true | _ => false end.

Definition is_set_response (e : Event) : bool :=
  match e with ESetResponse _ => true | _ => false end.

Definition is_set_loading (e : Event) : bool :=
  match e with ESetLoading _ => true | _ => false end.

Definition is_json_read (e : Event) : bool :=
  match e with EJsonRead _ => true | _ => false end.

Definition is_prevent_default (e : Event) : bool :=
  match e with EPreventDefault _ => true | _ => false end.

(** How many events of a kind a run has. *)
Definition count_events (kind : Event -> bool) (evs : list Event) : nat :=
  List.length (filter kind evs).

Lemma filter_users (kind : Event -> bool) (eds : list Edit) (rest : list Event) :
  (forall ed, kind (EUser ed) = false) ->
  filter kind (map EUser eds ++ rest) = filter kind rest.
Proof.
  intros H. induction eds as [|ed eds IH]; simpl; auto. now rewrite H.
Qed.

(** The count over an explicit, flattened event list. *)
Ltac count_kind :=
  unfold count_events;
  repeat (cbn [filter is_console_error is_set_response is_set_loading
                 is_json_read is_prevent_default];
          rewrite ?filter_users by reflexivity);
  cbn [List.length].

(** X6: the catch block logs exactly what was thrown: when an awaited
    fetch or json() is rejected with [e], console.error is called once,
    with the text Error: and [e] itself. *)
Theorem rejection_is_logged (w : World) (st : AppState) (e : Exn) :
  (exists r, In (ESettled r (Abrupt e)) (events (log_of (submit w st)))) \/
  (exists r, In (EJsonSettled r (Abrupt e)) (events (log_of (submit w st)))) ->
  In (EConsoleError [LogText "Error:"; LogError e])
     (events (log_of (submit w st))) /\
  count_events is_console_error (events (log_of (submit w st))) = 1.
Proof.
  submit_paths st; intros [(r0 & H)|(r0 & H)]; in_events H;
    injection H as <- <-.
  all: split; flatten_events; [find_in|count_kind; reflexivity].
Qed.

(** X7: console.error is called at most once in a run, and only on the
    way to the apology: a run that logs ends with the apology as its
    response. *)
Theorem logging_means_apology (w : World) (st : AppState) :
  count_events is_console_error (events (log_of (submit w st))) <= 1 /\
  (forall args, In (EConsoleError args) (events (log_of (submit w st))) ->
     response (state_of (submit w st)) = VString (lit error_message)).
Proof.
  submit_paths st; (split; [flatten_events; count_kind; lia|]);
    intros args H; in_events H; reflexivity.
Qed.

Lemma edits_log_response (eds : list Edit) (st : AppState) (en : Entry) :
  In en (edits_log eds st) -> response (at_state en) = response st.
Proof.
  revert st; induction eds as [|ed rest IH]; intros st; simpl; [tauto|].
  intros [<-|H]; simpl.
  - now destruct ed.
  - rewrite (IH _ H). now destruct ed.
Qed.


(** X9: the frame of every run: preventDefault is called first and once,
    setLoading(true) second, setLoading(false) last, and setLoading is
    called exactly these two times. *)
Theorem run_is_framed (w : World) (st : AppState) :
  firstn 2 (events (log_of (submit w st)))
    = [EPreventDefault FormSubmit; ESetLoading true] /\
  last (events (log_of (submit w st))) (ESetLoading true) = ESetLoading false /\
  count_events is_set_loading (events (log_of (submit w st))) = 2 /\
  count_events is_prevent_default (events (log_of (submit w st))) = 1.
Proof.
  submit_paths st.
  all: split; [flatten_events; reflexivity|].
  all: split; [rewrite events_note; apply last_last|].
  all: split; flatten_events; count_kind; reflexivity.
Qed.

(** X10: json() is called at most once in a run, and only on the response
    the query resolved with. *)
Theorem only_the_query_reply_is_decoded (w : World) (st : AppState) :
  count_events is_json_read (events (log_of (submit w st))) <= 1 /\
  (forall resp, In (EJsonRead resp) (events (log_of (submit w st))) ->
     In (ESettled (query_request (question st)) (Normal resp))
        (events (log_of (submit w st)))).
Proof.
  submit_paths st; (split; [flatten_events; count_kind; lia|]);
    intros resp H; in_events H; injection H as <-; flatten_events; find_in.
Qed.

(** ** The submit button *)

Lemma forallb_rev {A : Type} (p : A -> bool) (l : list A) :
  forallb p (rev l) = forallb p l.
Proof.
  induction l as [|x l IH]; simpl; auto.
  rewrite forallb_app, IH. simpl. rewrite andb_true_r. apply andb_comm.
Qed.

(** [trimStart] leaves nothing exactly when every code unit is white
    space, and what it leaves is white space only when it leaves nothing. *)
Lemma trimStart_nil (s : jsstring) :
  match trimStart s with [] => true | _ :: _ => false end
  = forallb is_whitespace s.
Proof.
  induction s as [|c s IH]; simpl; auto.
  destruct (is_whitespace c) eqn:E; simpl; auto.
Qed.

Lemma trimStart_blank (s : jsstring) :
  forallb is_whitespace (trimStart s)
  = match trimStart s with [] => true | _ :: _ => false end.
Proof.
  induction s as [|c s IH]; simpl; auto.
  destruct (is_whitespace c) eqn:E; simpl; auto. now rewrite E.
Qed.

Lemma is_blank_whitespace (q : jsstring) :
  is_blank q = forallb is_whitespace q.
Proof.
  unfold is_blank, trim, trimEnd, VString, truthy.
  rewrite <- (trimStart_nil q), <- trimStart_blank.
  rewrite <- (forallb_rev is_whitespace (trimStart q)).
  rewrite <- trimStart_nil.
  destruct (trimStart (rev (trimStart q))) as [|c t] eqn:E; simpl.
  - reflexivity.
  - destruct (rev t ++ [c]) eqn:E'; [now destruct (rev t)|reflexivity].
Qed.

(** X11: the submit button is disabled exactly when a submission is
    loading or the question has nothing but white space in it (tabs, line
    breaks, spaces, no-break and other Unicode spaces); one other code
    unit anywhere in the question enables it. *)
Theorem button_disabled_when_blank (st : AppState) :
  V1.submit_disabled st = loading st || forallb is_whitespace (question st) /\
  V2.submit_disabled st = V1.submit_disabled st /\
  (forall c, In c (question st) -> is_whitespace c = false ->
             V1.submit_disabled st = loading st).
Proof.
  assert (H : V1.submit_disabled st
              = loading st || forallb is_whitespace (question st)).
  { unfold V1.submit_disabled. fold (is_blank (question st)).
    now rewrite is_blank_whitespace. }
  split; [exact H|]. split; [reflexivity|].
  intros c Hin Hc. rewrite H.
  replace (forallb is_whitespace (question st)) with false;
    [apply orb_false_r|].
  symmetry. apply not_true_is_false. intros A.
  rewrite forallb_forall in A. rewrite (A c Hin) in Hc. discriminate.
Qed.

(** ** What is rendered *)

(** The literal texts of a tree, in document order. *)
Fixpoint texts (n : Node) : list string :=
  match n with
  | Element _ _ _ children => flat_map texts children
  | Fragment children => flat_map texts children
  | Text s => [s]
  | Interp _ => []
  end.

(** The interpolated values of a tree, in document order. *)
Fixpoint interpolated (n : Node) : list value :=
  match n with
  | Element _ _ _ children => flat_map interpolated children
  | Fragment children => flat_map interpolated children
  | Text _ => []
  | Interp v => [v]
  end.

(** The [disabled] attributes of a tree, in document order. *)
Fixpoint disabled_flags (n : Node) : list bool :=
  match n with
  | Element _ _ attrs children =>
      flat_map (fun a => match a with AttrDisabled b => [b] | _ => [] end) attrs
        ++ flat_map disabled_flags children
  | Fragment children => flat_map disabled_flags children
  | Text _ | Interp _ => []
  end.

(** X12: what both versions render from a state: the button reads
    Processing... exactly while loading and Submit Question otherwise,
    the Response heading is there exactly when the response is truthy,
    the response is the only interpolated value, and the only disabled
    flag is the submit button's. *)
Theorem render_follows_state (st : AppState) :
  let shown := texts (V1.App st) in
  texts (V2.App st) = shown /\
  (In "Processing..." shown <-> loading st = true) /\
  (In "Submit Question" shown <-> loading st = false) /\
  (In "Response" shown <-> truthy (response st) = true) /\
  interpolated (V1.App st) = [response st] /\
  interpolated (V2.App st) = [response st] /\
  disabled_flags (V1.App st) = [V1.submit_disabled st] /\
  disabled_flags (V2.App st) = [V1.submit_disabled st].
Proof.
  cbv zeta. unfold V1.App, V2.App.
  destruct (loading st) eqn:El, (truthy (response st)) eqn:Et;
    cbn -[V1.submit_disabled V2.submit_disabled];
    repeat split; try reflexivity; try discriminate; intros H;
    try (repeat (destruct H as [H|H]; try discriminate H); contradiction);
    tauto.
Qed.


(** ** Choosing a file, then submitting *)

(** X14: handleFileChange followed by handleSubmit: after an empty
    selection nothing is uploaded, the query is the only request; after a
    selection of one or more files the first one alone is uploaded, as
    the single entry doc of the form data, and any further request is the
    query. *)
Theorem chosen_file_is_uploaded (w0 w : World) (st : AppState)
  (e : FileChangeEvent) :
  let st1 := state_of (run w0 (V1.handleFileChange e) st []) in
  let reqs := requests_of (events (log_of (submit w st1))) in
  match target_files e with
  | [] => reqs = [query_request (question st)]
  | f :: _ =>
      body (add_document_request f) = FormBody [("doc", f)] /\
      exists rest, reqs = add_document_request f :: rest /\
                   Forall (fun r => r = query_request (question st)) rest
  end.
Proof.
  cbv zeta.
  set (st1 := state_of (run w0 (V1.handleFileChange e) st [])).
  assert (Hf : file st1 = first_file (target_files e)) by reflexivity.
  assert (Hq : question st1 = question st) by reflexivity.
  clearbody st1. rewrite <- Hq. clear Hq.
  destruct (target_files e) as [|f others]; simpl in Hf; revert Hf.
  - submit_paths st1; intros Hf; try discriminate Hf;
      flatten_events; count_requests; reflexivity.
  - submit_paths st1; intros Hf; try discriminate Hf; injection Hf as ->;
      (split; [reflexivity|]); flatten_events; count_requests;
      eexists; split; try reflexivity; repeat constructor.
Qed.

(** ** The question *)

(** X15: the body of the query request determines the question: two
    different questions never give the same request. *)
Theorem distinct_questions_distinct_requests (q1 q2 : jsstring) :
  q1 <> q2 -> query_request q1 <> query_request q2.
Proof.
  intros Hne E. apply Hne.
  apply (f_equal (fun r => match body r with
                           | TextBody t => parse_single_property t
                           | FormBody _ => None
                           end)) in E.
  cbn [body query_request] in E.
  rewrite !parse_stringify_single in E. now injection E.
Qed.

Lemma distinct_questions_distinct_requests_witness :
  lit "fees?" <> lit "limits?" /\
  query_request (lit "fees?") <> query_request (lit "limits?").
Proof.
  assert (H : lit "fees?" <> lit "limits?") by discriminate.
  split; [exact H|].
  exact (@distinct_questions_distinct_requests _ _ H).
Defined.

Definition is_set_question (e : Event) : bool :=
  match e with ESetQuestion _ => true | _ => false end.

(** X16: handleSubmit never calls setQuestion: the textarea is not
    cleared by a submission, and when the user types nothing while the
    requests are pending, the question after the run is the question that
    was submitted. *)
Theorem question_survives_submission (w : World) (st : AppState) :
  keeps_question w ->
  (forall q, ~ In (ESetQuestion q) (events (log_of (submit w st)))) /\
  question (state_of (submit w st)) = question st /\
  V1.submit_disabled (state_of (submit w st)) = is_blank (question st).
Proof.
  intros Hk.
  assert (Hq : question (state_of (submit w st)) = question st).
  { submit_paths st; use_law Hk; cbn;
      repeat (rewrite edits_state_question by assumption); reflexivity. }
  split; [|split; [exact Hq|]].
  - submit_paths st; intros q H; in_events H.
  - rewrite <- Hq. submit_paths st; reflexivity.
Qed.

Lemma question_survives_submission_witness :
  keeps_question offline /\
  question (state_of (submit offline (asking "fees?" FileNull))) = lit "fees?".
Proof.
  assert (Hk : keeps_question offline) by (split; intros; reflexivity).
  split; [exact Hk|].
  exact (proj1 (proj2 (@question_survives_submission offline
                         (asking "fees?" FileNull) Hk))).
Defined.

(** ** After the run *)

(** X17: what is on screen when a run is over: the button reads Submit
    Question again, never Processing...; and when an awaited fetch or
    json() was rejected, the Response heading is shown with the apology
    as the interpolated text. *)
Theorem apology_is_rendered (w : World) (st : AppState) :
  rejected (log_of (submit w st)) ->
  let tree := V1.App (state_of (submit w st)) in
  In "Submit Question" (texts tree) /\
  ~ In "Processing..." (texts tree) /\
  In "Response" (texts tree) /\
  interpolated tree = [VString (lit error_message)].
Proof.
  intros Hr. cbv zeta.
  assert (Hl : loading (state_of (submit w st)) = false)
    by (submit_paths st; reflexivity).
  assert (Ha : response (state_of (submit w st)) = VString (lit error_message)).
  { revert Hr. submit_paths st;
      intros [(r0 & e0 & H)|(r0 & e0 & H)]; try reflexivity; in_events H. }
  unfold V1.App. rewrite Hl, Ha.
  change (truthy (VString (lit error_message))) with true.
  cbn. repeat split; try tauto.
  intros H. repeat (destruct H as [H|H]; try discriminate H). contradiction.
Qed.

Lemma apology_is_rendered_witness :
  rejected (log_of (submit offline (asking "fees?" FileNull))) /\
  interpolated (V1.App (state_of (submit offline (asking "fees?" FileNull))))
  = [VString (lit error_message)].
Proof.
  assert (H : rejected (log_of (submit offline (asking "fees?" FileNull)))).
  { left. eexists _, failed_to_fetch. vm_compute. right; right; right; left.
    reflexivity. }
  split; [exact H|].
  exact (proj2 (proj2 (proj2 (@apology_is_rendered
                                offline (asking "fees?" FileNull) H)))).
Defined.

(** ** Concrete runs *)

(** An event of a concrete run. *)
Ltac in_concrete := vm_compute; repeat first [ left; reflexivity | right ].

Definition server_error : Response := {| resp_status := 500; resp_body := [] |}.

(** The backend answers every request with status 500 and the JSON [j]. *)
Definition failing_with (j : json) : World :=
  {| on_fetch := fun _ _ => {| meanwhile := []; outcome := Normal server_error |};
     on_json := fun _ _ => {| meanwhile := []; outcome := Normal j |} |}.

Lemma rejected_upload_skips_query_witness :
  url (add_document_request sample_file) = add_document_url /\
  In (ESettled (add_document_request sample_file) (Abrupt failed_to_fetch))
     (events (log_of (submit offline (asking "fees?" (Picked sample_file))))) /\
  requests_of (events (log_of (submit offline (asking "fees?" (Picked sample_file)))))
  = [add_document_request sample_file].
Proof.
  assert (H : In (ESettled (add_document_request sample_file)
                    (Abrupt failed_to_fetch))
                 (events (log_of (submit offline
                                    (asking "fees?" (Picked sample_file))))))
    by in_concrete.
  split; [reflexivity|split; [exact H|]].
  exact (proj1 (@rejected_upload_skips_query offline
                  (asking "fees?" (Picked sample_file))
                  (add_document_request sample_file) failed_to_fetch
                  eq_refl H)).
Defined.

Lemma resolved_upload_is_ignored_witness :
  url (add_document_request sample_file) = add_document_url /\
  In (ESettled (add_document_request sample_file) (Normal server_error))
     (events (log_of (submit (failing_with JNull)
                        (asking "fees?" (Picked sample_file))))) /\
  requests_of (events (log_of (submit (failing_with JNull)
                                 (asking "fees?" (Picked sample_file)))))
  = [add_document_request sample_file; query_request (lit "fees?")].
Proof.
  assert (H : In (ESettled (add_document_request sample_file)
                    (Normal server_error))
                 (events (log_of (submit (failing_with JNull)
                                    (asking "fees?" (Picked sample_file))))))
    by in_concrete.
  split; [reflexivity|split; [exact H|]].
  exact (@resolved_upload_is_ignored (failing_with JNull)
           (asking "fees?" (Picked sample_file))
           (add_document_request sample_file) server_error eq_refl H).
Defined.

Definition error_detail : json := JObject [(lit "detail", JString (lit "boom"))].

Lemma answer_is_shown_witness :
  In (EJsonSettled server_error (Normal error_detail))
     (events (log_of (submit (failing_with error_detail)
                        (asking "fees?" FileNull)))) /\
  get_property error_detail "answer" = Normal Undefined /\
  response (state_of (submit (failing_with error_detail)
                        (asking "fees?" FileNull))) = Undefined.
Proof.
  assert (H : In (EJsonSettled server_error (Normal error_detail))
                 (events (log_of (submit (failing_with error_detail)
                                    (asking "fees?" FileNull)))))
    by in_concrete.
  split; [exact H|split; [reflexivity|]].
  exact (proj1 (@answer_is_shown (failing_with error_detail)
                  (asking "fees?" FileNull) server_error error_detail Undefined
                  H eq_refl)).
Defined.

Lemma null_reply_is_an_error_witness :
  In (EJsonSettled server_error (Normal JNull))
     (events (log_of (submit (failing_with JNull) (asking "fees?" FileNull)))) /\
  response (state_of (submit (failing_with JNull) (asking "fees?" FileNull)))
  = VString (lit error_message).
Proof.
  assert (H : In (EJsonSettled server_error (Normal JNull))
                 (events (log_of (submit (failing_with JNull)
                                    (asking "fees?" FileNull)))))
    by in_concrete.
  split; [exact H|].
  exact (proj1 (@null_reply_is_an_error (failing_with JNull)
                  (asking "fees?" FileNull) _ H)).
Defined.

Lemma rejection_is_logged_witness :
  In (ESettled (query_request (lit "fees?")) (Abrupt failed_to_fetch))
     (events (log_of (submit offline (asking "fees?" FileNull)))) /\
  In (EConsoleError [LogText "Error:"; LogError failed_to_fetch])
     (events (log_of (submit offline (asking "fees?" FileNull)))).
Proof.
  assert (H : In (ESettled (query_request (lit "fees?")) (Abrupt failed_to_fetch))
                 (events (log_of (submit offline (asking "fees?" FileNull)))))
    by in_concrete.
  split; [exact H|].
  exact (proj1 (@rejection_is_logged offline (asking "fees?" FileNull)
                  failed_to_fetch
                  (or_introl (ex_intro
                     (fun r => In (ESettled r (Abrupt failed_to_fetch))
                                  (events (log_of (submit offline
                                                     (asking "fees?" FileNull)))))
                     (query_request (lit "fees?")) H)))).
Defined.


(** * The retrieval core behind [/add-document] and [/query]

    The backend modules ([app.ingest], [app.main]) are not among the
    sources at hand; the form above is their only caller here.  The
    components below are modelled from the design document, section by
    section. *)

Module Core.

(** ** Data model *)

(** Text is a sequence of words, the unit the chunker counts in. *)
Definition word := string.
Definition text := list word.

(** Modelled from the spec: a Document has an identifier, a source name,
    its raw text and an ingestion timestamp (data model, Document). *)
Record Document : Type := {
  doc_id : nat;
  source_name : string;
  raw_text : text;
  ingested_at : nat
}.

(** Modelled from the spec: a Chunk belongs to one Document and has its
    chunk index within the document, its text span and its boundaries
    (data model, Chunk). *)
Record Chunk : Type := {
  chunk_doc : nat;
  chunk_index : nat;
  chunk_start : nat;
  chunk_end : nat;
  chunk_text : text
}.

(** What of a chunk depends on the text alone. *)
Definition span (c : Chunk) : nat * nat * nat * text :=
  (chunk_index c, chunk_start c, chunk_end c, chunk_text c).

(** ** Chunker *)

(** Modelled from the spec: the target passage length and the overlap
    between consecutive passages, the overlap being a fraction of the
    target and so smaller than it (Chunker contract). *)
Record ChunkerConfig : Type := {
  target_length : nat;
  overlap : nat;
  overlap_below_target : Nat.ltb overlap target_length = true
}.

Definition stride (cfg : ChunkerConfig) : nat := target_length cfg - overlap cfg.

(** Modelled from the spec: the boundaries of the passages of a text of
    [n] words: windows of the target length, each starting [stride] after
    the previous one; the window that reaches the end of the text is the
    last and may be shorter, so no trailing content is dropped. *)
Fixpoint windows (cfg : ChunkerConfig) (fuel start n : nat) : list (nat * nat) :=
  match fuel with
  | 0 => []
  | S fuel' =>
      if Nat.leb n (start + target_length cfg)
      then [(start, n)]
      else (start, start + target_length cfg)
             :: windows cfg fuel' (start + stride cfg) n
  end.

Fixpoint number_from {A : Type} (i : nat) (l : list A) : list (nat * A) :=
  match l with
  | [] => []
  | x :: rest => (i, x) :: number_from (S i) rest
  end.

Definition slice (t : text) (from to : nat) : text :=
  firstn (to - from) (skipn from t).

(** Modelled from the spec: [chunk(document)], the ordered sequence of
    the Chunks of a Document; an empty text has no chunk (Chunker
    contract). *)
Definition chunk (cfg : ChunkerConfig) (d : Document) : list Chunk :=
  match raw_text d with
  | [] => []
  | _ :: _ =>
      let n := List.length (raw_text d) in
      map (fun '(i, (a, b)) =>
             {| chunk_doc := doc_id d; chunk_index := i;
                chunk_start := a; chunk_end := b;
                chunk_text := slice (raw_text d) a b |})
          (number_from 0 (windows cfg n 0 n))
  end.

(** The windows reach the end of the text: the fuel suffices. *)
Lemma windows_reach_end (cfg : ChunkerConfig) (fuel start n : nat) :
  n <= start + fuel -> 0 < fuel ->
  exists a, last (windows cfg fuel start n) (0, 0) = (a, n).
Proof.
  pose proof (overlap_below_target cfg) as Ho. apply Nat.ltb_lt in Ho.
  revert start; induction fuel as [|fuel IH]; intros start Hn Hf; [lia|].
  simpl. destruct (Nat.leb n (start + target_length cfg)) eqn:E.
  - now exists start.
  - apply Nat.leb_gt in E.
    destruct (IH (start + stride cfg)) as [a Ha].
    + unfold stride. lia.
    + lia.
    + exists a. destruct fuel; [lia|]. simpl in *.
      destruct (Nat.leb n (start + stride cfg + target_length cfg)); exact Ha.
Qed.

(** Chunks depend on the document through its text and its identifier
    only. *)
Lemma chunk_spans_from_text (cfg : ChunkerConfig) (d d' : Document) :
  raw_text d = raw_text d' -> map span (chunk cfg d) = map span (chunk cfg d').
Proof.
  intros E. unfold chunk. rewrite <- E.
  destruct (raw_text d) as [|w t]; [reflexivity|].
  rewrite !map_map. apply map_ext. now intros [i [a b]].
Qed.

Definition two_word_windows : ChunkerConfig :=
  {| target_length := 2; overlap := 1; overlap_below_target := eq_refl |}.

Definition faq (id : nat) (at_time : nat) : Document :=
  {| doc_id := id; source_name := "faq.txt";
     raw_text := ["mobile"; "banking"; "can"; "be"; "activated"];
     ingested_at := at_time |}.

(** The sample text of five words gives four overlapping windows. *)
Lemma chunk_faq_boundaries :
  map (fun c => (chunk_start c, chunk_end c)) (chunk two_word_windows (faq 1 10))
  = [(0, 2); (1, 3); (2, 4); (3, 5)].
Proof. reflexivity. Qed.

(** ** Errors *)

(** Modelled from the spec: the error taxonomy of the core (error
    handling design). *)
Inductive Error : Type :=
| ChunkingError
| EmbeddingError
| IndexError
| GenerationError.

Inductive Result (A : Type) : Type :=
| Ok (a : A)
| Failed (e : Error).
Arguments Failed {A} e.

(** ** Vector index *)

Section Retrieval.

(** Modelled from the spec: an Embedding is a numeric vector; the index
    compares two of them by one fixed similarity metric whose scores are
    totally ordered, a higher score meaning more similar (Embedder and
    Vector Index contracts).  The numeric types are left open. *)
Variable vector : Type.
Variable score : Type.
Variable similarity : vector -> vector -> score.
Variable score_leb : score -> score -> bool.
Hypothesis score_leb_total :
  forall a b, score_leb a b = true \/ score_leb b a = true.
Hypothesis score_leb_trans :
  forall a b c, score_leb a b = true -> score_leb b c = true -> score_leb a c = true.

(** A chunk with its embedding. *)
Record Embedded : Type := { emb_chunk : Chunk; emb_vector : vector }.

(** Modelled from the spec: an Index Snapshot holds the ordered list of
    the embedded chunks it was built from (data model, Index Snapshot). *)
Record Snapshot : Type := { snap_chunks : list Embedded }.

(** Modelled from the spec: [build(chunks with embeddings)]. *)
Definition build (chunks : list Embedded) : Snapshot := {| snap_chunks := chunks |}.

Definition empty_snapshot : Snapshot := build [].

(** One entry of a Retrieval Result. *)
Record Hit : Type := { hit_chunk : Chunk; hit_score : score }.

Definition RetrievalResult := list Hit.

(** A chunk of the snapshot with its insertion position. *)
Abbreviation Candidate := (nat * Embedded)%type.

Definition candidate_score (q : vector) (c : Candidate) : score :=
  similarity q (emb_vector (snd c)).

(** Insert [x], which was inserted in the snapshot before every element of
    [l], into the ranking [l]: before the first element that is not
    strictly more similar. *)
Fixpoint insert_ranked (q : vector) (x : Candidate) (l : list Candidate)
  : list Candidate :=
  match l with
  | [] => [x]
  | y :: rest =>
      if score_leb (candidate_score q y) (candidate_score q x)
      then x :: y :: rest
      else y :: insert_ranked q x rest
  end.

(** All candidates, most similar first, ties in insertion order. *)
Fixpoint rank (q : vector) (l : list Candidate) : list Candidate :=
  match l with
  | [] => []
  | x :: rest => insert_ranked q x (rank q rest)
  end.

(** The [k] best candidates, [k] clamped to the number of chunks. *)
Definition top (s : Snapshot) (q : vector) (k : nat) : list Candidate :=
  firstn (Nat.min k (List.length (snap_chunks s)))
         (rank q (number_from 0 (snap_chunks s))).

(** Modelled from the spec: [search(snapshot, query vector, k)] returns
    the k nearest chunks with their scores, most similar first, ties
    broken by insertion order, k clamped to the available chunk count
    (Vector Index contract). *)
Definition search (s : Snapshot) (q : vector) (k : nat) : RetrievalResult :=
  map (fun c => {| hit_chunk := emb_chunk (snd c);
                   hit_score := candidate_score q c |})
      (top s q k).

(** The insertion position of every returned chunk, in result order. *)
Definition search_positions (s : Snapshot) (q : vector) (k : nat) : list nat :=
  map fst (top s q k).

(** [a] is ranked before [b]: it is at least as similar, and on a tie it
    was inserted first. *)
Definition precedes (q : vector) (a b : Candidate) : Prop :=
  score_leb (candidate_score q b) (candidate_score q a) = true /\
  (score_leb (candidate_score q a) (candidate_score q b) = true -> fst a < fst b).

Lemma insert_ranked_perm (q : vector) (x : Candidate) (l : list Candidate) :
  Permutation (insert_ranked q x l) (x :: l).
Proof.
  induction l as [|y rest IH]; simpl; auto.
  destruct (score_leb (candidate_score q y) (candidate_score q x)); auto.
  rewrite IH. apply perm_swap.
Qed.

Lemma rank_perm (q : vector) (l : list Candidate) : Permutation (rank q l) l.
Proof.
  induction l as [|x rest IH]; simpl; auto.
  rewrite insert_ranked_perm. now constructor.
Qed.

Lemma insert_ranked_sorted (q : vector) (x : Candidate) (l : list Candidate) :
  StronglySorted (precedes q) l ->
  Forall (fun y => fst x < fst y) l ->
  StronglySorted (precedes q) (insert_ranked q x l).
Proof.
  induction l as [|y rest IH]; intros Hs Hx; simpl.
  - repeat constructor.
  - inversion Hs as [|? ? Hrest Hy]; subst.
    inversion Hx as [|? ? Hxy Hxrest]; subst.
    destruct (score_leb (candidate_score q y) (candidate_score q x)) eqn:E.
    + constructor; [exact Hs|]. constructor.
      * split; [exact E|]. intros _. exact Hxy.
      * rewrite Forall_forall in Hy, Hxrest |- *. intros z Hz. split.
        -- apply score_leb_trans with (candidate_score q y); [|exact E].
           exact (proj1 (Hy z Hz)).
        -- intros _. now apply Hxrest.
    + constructor; [now apply IH|].
      rewrite Forall_forall in Hy |- *. intros z Hz.
      apply (Permutation_in _ (insert_ranked_perm q x rest)) in Hz.
      destruct Hz as [<-|Hz]; [|now apply Hy].
      split.
      * destruct (score_leb_total (candidate_score q x) (candidate_score q y))
          as [H|H]; [exact H|congruence].
      * intros H. congruence.
Qed.

Lemma rank_sorted (q : vector) (l : list Candidate) :
  StronglySorted (fun a b => fst a < fst b) l ->
  StronglySorted (precedes q) (rank q l).
Proof.
  induction l as [|x rest IH]; intros Hs; simpl; [constructor|].
  inversion Hs as [|? ? Hrest Hx]; subst.
  apply insert_ranked_sorted; [now apply IH|].
  rewrite Forall_forall in Hx |- *. intros y Hy. apply Hx.
  now apply (Permutation_in _ (rank_perm q rest)).
Qed.


Lemma number_from_spec {A : Type} (l : list A) (i p : nat) (x : A) :
  In (p, x) (number_from i l) <-> i <= p /\ nth_error l (p - i) = Some x.
Proof.
  revert i; induction l as [|y rest IH]; intros i; simpl.
  - split; [tauto|]. intros [_ H]. now destruct (p - i).
  - rewrite IH. split.
    + intros [E|[Hle Hn]].
      * injection E as -> ->. split; [lia|]. now rewrite Nat.sub_diag.
      * split; [lia|]. replace (p - i) with (S (p - S i)) by lia. exact Hn.
    + intros [Hle Hn]. destruct (Nat.eq_dec i p) as [->|Hne].
      * left. rewrite Nat.sub_diag in Hn. simpl in Hn. congruence.
      * right. split; [lia|].
        replace (p - i) with (S (p - S i)) in Hn by lia. exact Hn.
Qed.

Lemma number_from_increasing {A : Type} (l : list A) (i : nat) :
  StronglySorted (fun a b : nat * A => fst a < fst b) (number_from i l).
Proof.
  revert i; induction l as [|y rest IH]; intros i; simpl; constructor; auto.
  rewrite Forall_forall. intros [p x] H. apply number_from_spec in H. simpl. lia.
Qed.

Lemma number_from_length {A : Type} (l : list A) (i : nat) :
  List.length (number_from i l) = List.length l.
Proof. revert i; induction l; intros i; simpl; auto. Qed.

Lemma in_firstn {A : Type} (l : list A) (n : nat) (x : A) :
  In x (firstn n l) -> In x l.
Proof.
  intros H. rewrite <- (firstn_skipn n l). apply in_or_app. now left.
Qed.

Lemma in_skipn {A : Type} (l : list A) (n : nat) (x : A) :
  In x (skipn n l) -> In x l.
Proof.
  intros H. rewrite <- (firstn_skipn n l). apply in_or_app. now right.
Qed.

Lemma sorted_firstn {A : Type} (R : A -> A -> Prop) (l : list A) (n : nat) :
  StronglySorted R l -> StronglySorted R (firstn n l).
Proof.
  revert n; induction l as [|x rest IH]; intros [|n] Hs; simpl; try constructor.
  - inversion Hs; subst. now apply IH.
  - inversion Hs as [|? ? _ Hx]; subst. rewrite Forall_forall in Hx |- *.
    intros y Hy. apply Hx. exact (in_firstn _ _ _ Hy).
Qed.

Lemma sorted_nth {A : Type} (R : A -> A -> Prop) (l : list A) :
  StronglySorted R l ->
  forall i j a b, i < j -> nth_error l i = Some a -> nth_error l j = Some b ->
                  R a b.
Proof.
  induction 1 as [|x rest Hs IH Hx]; intros i j a b Hij Hi Hj.
  - now destruct i.
  - destruct j as [|j]; [lia|]. simpl in Hj. destruct i as [|i]; simpl in Hi.
    + injection Hi as <-. rewrite Forall_forall in Hx. apply Hx.
      eapply nth_error_In; eauto.
    + apply (IH i j); auto. lia.
Qed.

Lemma sorted_split {A : Type} (R : A -> A -> Prop) (l : list A) (n : nat) :
  StronglySorted R l ->
  forall a b, In a (firstn n l) -> In b (skipn n l) -> R a b.
Proof.
  intros Hs. revert n; induction Hs as [|x rest Hs IH Hx]; intros n a b Ha Hb.
  - now destruct n.
  - destruct n as [|n]; simpl in *; [contradiction|].
    destruct Ha as [<-|Ha].
    + rewrite Forall_forall in Hx. apply Hx. exact (in_skipn _ _ _ Hb).
    + now apply (IH n).
Qed.

Lemma rank_length (q : vector) (l : list Candidate) :
  List.length (rank q l) = List.length l.
Proof. apply Permutation_length, rank_perm. Qed.

Lemma top_length (s : Snapshot) (q : vector) (k : nat) :
  List.length (top s q k) = Nat.min k (List.length (snap_chunks s)).
Proof.
  unfold top. rewrite length_firstn, rank_length, number_from_length. lia.
Qed.

Lemma top_sorted (s : Snapshot) (q : vector) (k : nat) :
  StronglySorted (precedes q) (top s q k).
Proof. apply sorted_firstn, rank_sorted, number_from_increasing. Qed.

(** Every ranked candidate is a chunk of the snapshot at its position. *)
Lemma top_in_snapshot (s : Snapshot) (q : vector) (k : nat) (c : Candidate) :
  In c (top s q k) -> nth_error (snap_chunks s) (fst c) = Some (snd c).
Proof.
  intros H. apply in_firstn in H.
  apply (Permutation_in _ (rank_perm q _)) in H.
  destruct c as [p e]. apply number_from_spec in H. simpl.
  now rewrite Nat.sub_0_r in H.
Qed.

(** C3: for every snapshot, query vector and k, the Retrieval Result of
    search has min(k, number of chunks) entries, hence at most k; every
    entry is a chunk of the snapshot with its similarity to the query;
    scores are non-increasing by position; among entries with equal
    scores the chunk inserted earlier comes first; and no chunk left out
    is more similar than a returned one. *)
Theorem search_sorted_bounded (s : Snapshot) (q : vector) (k : nat) :
  let r := search s q k in
  let ps := search_positions s q k in
  List.length r = Nat.min k (List.length (snap_chunks s)) /\
  List.length r <= k /\
  List.length ps = List.length r /\
  (forall i p h, nth_error ps i = Some p -> nth_error r i = Some h ->
     exists e, nth_error (snap_chunks s) p = Some e /\
               hit_chunk h = emb_chunk e /\
               hit_score h = similarity q (emb_vector e)) /\
  (forall i j hi hj, i < j ->
     nth_error r i = Some hi -> nth_error r j = Some hj ->
     score_leb (hit_score hj) (hit_score hi) = true) /\
  (forall i j hi hj pi pj, i < j ->
     nth_error r i = Some hi -> nth_error r j = Some hj ->
     nth_error ps i = Some pi -> nth_error ps j = Some pj ->
     score_leb (hit_score hi) (hit_score hj) = true -> pi < pj) /\
  (forall p e h, nth_error (snap_chunks s) p = Some e -> ~ In p ps -> In h r ->
     score_leb (similarity q (emb_vector e)) (hit_score h) = true).
Proof.
  cbv zeta. unfold search, search_positions.
  repeat split.
  - now rewrite length_map, top_length.
  - rewrite length_map, top_length. lia.
  - now rewrite !length_map.
  - intros i p h Hp Hh. rewrite nth_error_map in Hp, Hh.
    destruct (nth_error (top s q k) i) as [c|] eqn:E; [|discriminate].
    injection Hp as <-. injection Hh as <-. exists (snd c). simpl.
    split; [|split; reflexivity].
    apply top_in_snapshot with q k. eapply nth_error_In; eauto.
  - intros i j hi hj Hij Hi Hj. rewrite nth_error_map in Hi, Hj.
    destruct (nth_error (top s q k) i) as [ci|] eqn:Ei; [|discriminate].
    destruct (nth_error (top s q k) j) as [cj|] eqn:Ej; [|discriminate].
    injection Hi as <-. injection Hj as <-. simpl.
    exact (proj1 (sorted_nth (top_sorted s q k) Hij Ei Ej)).
  - intros i j hi hj pi pj Hij Hi Hj Hpi Hpj Htie.
    rewrite nth_error_map in Hi, Hj, Hpi, Hpj.
    destruct (nth_error (top s q k) i) as [ci|] eqn:Ei; [|discriminate].
    destruct (nth_error (top s q k) j) as [cj|] eqn:Ej; [|discriminate].
    injection Hi as <-. injection Hj as <-. injection Hpi as <-.
    injection Hpj as <-. simpl in Htie.
    exact (proj2 (sorted_nth (top_sorted s q k) Hij Ei Ej) Htie).
  - intros p e h He Hout Hh. apply in_map_iff in Hh. destruct Hh as (c & <- & Hc).
    simpl. unfold top in Hc, Hout.
    set (m := Nat.min k (List.length (snap_chunks s))) in *.
    set (l := rank q (number_from 0 (snap_chunks s))) in *.
    assert (Hl : In (p, e) l).
    { apply (Permutation_in _ (Permutation_sym (rank_perm q _))).
      apply number_from_spec. split; [lia|]. now rewrite Nat.sub_0_r. }
    rewrite <- (firstn_skipn m l) in Hl. apply in_app_or in Hl.
    destruct Hl as [Hl|Hl].
    + destruct Hout. apply in_map_iff. now exists (p, e).
    + assert (Hs : StronglySorted (precedes q) l)
        by apply rank_sorted, number_from_increasing.
      exact (proj1 (sorted_split m Hs _ _ Hc Hl)).
Qed.

(** ** Embedder *)

(** The embedding backend: its encoder and its maximum input length. *)
Variable encoder : text -> vector.
Variable max_input : nat.

(** Modelled from the spec: [embed(text)] is a function of the text; it
    fails with EmbeddingError if the text is empty or exceeds the
    backend's maximum input length (Embedder contract). *)
Definition embed (t : text) : Result vector :=
  match t with
  | [] => Failed EmbeddingError
  | _ :: _ =>
      if Nat.ltb max_input (List.length t)
      then Failed EmbeddingError
      else Ok (encoder t)
  end.

(** Modelled from the spec: the batched variant keeps the input order and
    fails as a whole when one text fails (Embedder contract). *)
Fixpoint embed_chunks (cs : list Chunk) : Result (list Embedded) :=
  match cs with
  | [] => Ok []
  | c :: rest =>
      match embed (chunk_text c), embed_chunks rest with
      | Ok v, Ok es => Ok ({| emb_chunk := c; emb_vector := v |} :: es)
      | Failed e, _ => Failed e
      | _, Failed e => Failed e
      end
  end.

(** ** Index manager *)

(** Modelled from the spec: the Index Manager holds the published
    snapshot reference and the chunks ingested so far (Index Manager). *)
Record Manager : Type := {
  published : Snapshot;
  ingested : list Embedded
}.

(** Before any ingestion. *)
Definition initial_manager : Manager :=
  {| published := empty_snapshot; ingested := [] |}.

(** Modelled from the spec: [current()] reads whatever is published. *)
Definition current (m : Manager) : Snapshot := published m.

(** Modelled from the spec: [rebuildFull(all chunks)] builds a new
    snapshot and swaps the published reference. *)
Definition rebuildFull (chunks : list Embedded) : Manager :=
  {| published := build chunks; ingested := chunks |}.

(** The chunks that stay when document [id] is ingested again. *)
Definition others (id : nat) (chunks : list Embedded) : list Embedded :=
  filter (fun e => negb (Nat.eqb (chunk_doc (emb_chunk e)) id)) chunks.

(** Modelled from the spec: the chunk list of the rebuild that
    [addDocument(document)] triggers: the previously ingested chunks, those
    of an earlier version of the same document replaced, then the new ones
    (Index Manager and Ingestion Pipeline). *)
Definition chunks_with (cfg : ChunkerConfig) (m : Manager) (d : Document)
  : Result (list Embedded) :=
  match embed_chunks (chunk cfg d) with
  | Ok new => Ok (others (doc_id d) (ingested m) ++ new)
  | Failed e => Failed e
  end.

(** Modelled from the spec: [addDocument(document)]; a failed ingestion
    leaves the manager as it was. *)
Definition addDocument (cfg : ChunkerConfig) (m : Manager) (d : Document)
  : Manager * option Error :=
  match chunks_with cfg m d with
  | Ok all => (rebuildFull all, None)
  | Failed e => (m, Some e)
  end.

(** ** Retriever *)

(** Modelled from the spec: [retrieve(question, k)] embeds the question,
    fetches the current snapshot and calls [search]; if the current
    snapshot has zero chunks it returns an empty Retrieval Result rather
    than failing (Retriever contract). *)
Definition retrieve (m : Manager) (question : text) (k : nat)
  : Result RetrievalResult :=
  let embedded := embed question in
  let snapshot := current m in
  match snap_chunks snapshot with
  | [] => Ok []
  | _ :: _ =>
      match embedded with
      | Failed e => Failed e
      | Ok v => Ok (search snapshot v k)
      end
  end.

(** ** Answer generator *)

Inductive Instruction : Type :=
| AnswerOnlyFromContext
| NoContextFound.

(** Modelled from the spec: a prompt carries a fixed instruction, the
    retrieved chunk texts in their returned order, then the question
    (Answer Generator contract). *)
Record Prompt : Type := {
  instruction : Instruction;
  context : list text;
  prompt_question : text
}.

(** Modelled from the spec: with an empty Retrieval Result the prompt
    tells the model that no context was found. *)
Definition build_prompt (question : text) (r : RetrievalResult) : Prompt :=
  match r with
  | [] => {| instruction := NoContextFound; context := [];
             prompt_question := question |}
  | _ :: _ =>
      {| instruction := AnswerOnlyFromContext;
         context := map (fun h => chunk_text (hit_chunk h)) r;
         prompt_question := question |}
  end.

(** The language-model capability; [None] is a transport failure or a
    timeout. *)
Variable llm : Prompt -> option text.

(** Modelled from the spec: an Answer is the generated text plus the
    Chunks used to produce it, tied to one Query (data model, Answer). *)
Record Answer : Type := {
  answer_text : text;
  answer_chunks : list Chunk;
  answer_question : text
}.

(** Modelled from the spec: [generate(question, retrieval result)] calls
    the model once and fails with GenerationError when the call fails. *)
Definition generate (question : text) (r : RetrievalResult) : Result Answer :=
  match llm (build_prompt question r) with
  | Some t => Ok {| answer_text := t; answer_chunks := map hit_chunk r;
                    answer_question := question |}
  | None => Failed GenerationError
  end.

Definition default_k : nat := 4.

(** Modelled from the spec: [answerQuestion(question, k?)]. *)
Definition answerQuestion (m : Manager) (question : text) (k : option nat)
  : Result Answer :=
  let k := match k with Some k => k | None => default_k end in
  match retrieve m question k with
  | Failed e => Failed e
  | Ok r => generate question r
  end.

Lemma search_empty (s : Snapshot) (q : vector) (k : nat) :
  snap_chunks s = [] -> search s q k = [].
Proof.
  intros E. unfold search, top. rewrite E. simpl. now rewrite Nat.min_0_r.
Qed.

(** Modelled from the spec: a fallback Answer that is not hallucinated:
    it presents no chunk as its source, and its text is what the model
    replied to a prompt that told it no context was found and gave it no
    chunk text (Answer Generator contract, empty Retrieval Result). *)
Definition non_hallucinated_fallback (question : text) (a : Answer) : Prop :=
  answer_chunks a = [] /\
  answer_question a = question /\
  exists p, instruction p = NoContextFound /\ context p = [] /\
            prompt_question p = question /\ llm p = Some (answer_text a).


(** On a snapshot that has chunks, a question the Embedder refuses makes
    the retrieval fail. *)
Lemma retrieve_refused_question (m : Manager) (k : nat) :
  snap_chunks (current m) <> [] -> retrieve m [] k = Failed EmbeddingError.
Proof.
  intros H. unfold retrieve. now destruct (snap_chunks (current m)).
Qed.

(** ** Queries concurrent with [addDocument] *)

(** Modelled from the spec: the writer thread of [addDocument]: it ingests
    the document, builds the new snapshot off to the side one chunk at a
    time, then swaps the published reference in one step (Index Manager;
    concurrency and resource model). *)
Inductive Writer : Type :=
| WRequested (d : Document)
| WBuilding (todo : list Embedded) (built : list Embedded)
| WDone (failure : option Error).

(** Modelled from the spec: a reader thread of one query: it embeds the
    question, takes the reference published at that moment, searches the
    snapshot it holds (Retriever; concurrency and resource model). *)
Inductive Reader : Type :=
| RAsked (question : text) (k : nat)
| REmbedded (v : vector) (k : nat)
| RHolding (v : vector) (k : nat) (held : Snapshot)
| RDone (r : Result RetrievalResult).

Record System : Type := {
  manager : Manager;
  writer : Writer;
  readers : list Reader
}.

Definition step_writer (cfg : ChunkerConfig) (m : Manager) (w : Writer)
  : Manager * Writer :=
  match w with
  | WRequested d =>
      match chunks_with cfg m d with
      | Ok all => (m, WBuilding all [])
      | Failed e => (m, WDone (Some e))
      end
  | WBuilding (c :: todo) built => (m, WBuilding todo (built ++ [c]))
  | WBuilding [] built => (rebuildFull built, WDone None)
  | WDone f => (m, WDone f)
  end.

Definition step_reader (m : Manager) (r : Reader) : Reader :=
  match r with
  | RAsked question k =>
      match embed question with
      | Ok v => REmbedded v k
      | Failed e => RDone (Failed e)
      end
  | REmbedded v k => RHolding v k (current m)
  | RHolding v k held => RDone (Ok (search held v k))
  | RDone r => RDone r
  end.

Fixpoint step_nth (m : Manager) (i : nat) (rs : list Reader) : list Reader :=
  match rs, i with
  | [], _ => []
  | r :: rest, 0 => step_reader m r :: rest
  | r :: rest, S i' => r :: step_nth m i' rest
  end.

(** Which thread moves next. *)
Inductive Pick : Type :=
| PickWriter
| PickReader (i : nat).

Definition step (cfg : ChunkerConfig) (p : Pick) (s : System) : System :=
  match p with
  | PickWriter =>
      let '(m, w) := step_writer cfg (manager s) (writer s) in
      {| manager := m; writer := w; readers := readers s |}
  | PickReader i =>
      {| manager := manager s; writer := writer s;
         readers := step_nth (manager s) i (readers s) |}
  end.

(** An interleaving of the threads. *)
Fixpoint interleave (cfg : ChunkerConfig) (schedule : list Pick) (s : System)
  : System :=
  match schedule with
  | [] => s
  | p :: rest => interleave cfg rest (step cfg p s)
  end.

(** The queries [qs] start while [addDocument d] is requested. *)
Definition concurrent_start (m : Manager) (d : Document)
  (qs : list (text * nat)) : System :=
  {| manager := m; writer := WRequested d;
     readers := map (fun q => RAsked (fst q) (snd q)) qs |}.

(** The snapshot after the add, as the sequential [addDocument] leaves it. *)
Definition post_add (cfg : ChunkerConfig) (m : Manager) (d : Document) : Snapshot :=
  published (fst (addDocument cfg m d)).

(** What a reader of the query [(question, k)] may be, between the
    snapshots [pre] and [post]. *)
Definition reader_ok (pre post : Snapshot) (q : text * nat) (r : Reader) : Prop :=
  match r with
  | RAsked question k => question = fst q /\ k = snd q
  | REmbedded v k => embed (fst q) = Ok v /\ k = snd q
  | RHolding v k held =>
      embed (fst q) = Ok v /\ k = snd q /\ (held = pre \/ held = post)
  | RDone (Ok r) =>
      exists v, embed (fst q) = Ok v /\
                (r = search pre v (snd q) \/ r = search post v (snd q))
  | RDone (Failed e) => embed (fst q) = Failed e
  end.

(** What the writer and the published reference may be. *)
Definition writer_ok (cfg : ChunkerConfig) (m0 : Manager) (d : Document)
  (m : Manager) (w : Writer) : Prop :=
  match w with
  | WRequested d' => d' = d /\ m = m0
  | WBuilding todo built =>
      m = m0 /\ chunks_with cfg m0 d = Ok (built ++ todo)
  | WDone None => exists all, chunks_with cfg m0 d = Ok all /\ m = rebuildFull all
  | WDone (Some e) => chunks_with cfg m0 d = Failed e /\ m = m0
  end.

Definition system_ok (cfg : ChunkerConfig) (m0 : Manager) (d : Document)
  (qs : list (text * nat)) (s : System) : Prop :=
  writer_ok cfg m0 d (manager s) (writer s) /\
  (published (manager s) = published m0 \/
   published (manager s) = post_add cfg m0 d) /\
  Forall2 (reader_ok (published m0) (post_add cfg m0 d)) qs (readers s).

Lemma writer_ok_published (cfg : ChunkerConfig) (m0 : Manager) (d : Document)
  (m : Manager) (w : Writer) :
  writer_ok cfg m0 d m w ->
  published m = published m0 \/ published m = post_add cfg m0 d.
Proof.
  unfold post_add, addDocument.
  destruct w as [d'|todo built|[e|]]; simpl.
  - intros [_ ->]. now left.
  - intros [-> _]. now left.
  - intros [_ ->]. now left.
  - intros (all & -> & ->). now right.
Qed.

Lemma step_writer_ok (cfg : ChunkerConfig) (m0 : Manager) (d : Document)
  (m : Manager) (w : Writer) :
  writer_ok cfg m0 d m w ->
  writer_ok cfg m0 d (fst (step_writer cfg m w)) (snd (step_writer cfg m w)).
Proof.
  destruct w as [d'|[|c todo] built|[e|]]; simpl.
  - intros [-> ->]. destruct (chunks_with cfg m0 d) as [all|e] eqn:E; simpl; auto.
  - intros [-> E]. rewrite app_nil_r in E. now exists built.
  - intros [-> E]. split; [reflexivity|]. now rewrite <- app_assoc.
  - auto.
  - auto.
Qed.

Lemma step_reader_ok (pre post : Snapshot) (m : Manager) (q : text * nat)
  (r : Reader) :
  published m = pre \/ published m = post ->
  reader_ok pre post q r -> reader_ok pre post q (step_reader m r).
Proof.
  intros Hm. destruct r as [question k|v k|v k held|[r|e]]; simpl; auto.
  - intros [-> ->]. destruct (embed (fst q)) eqn:E; simpl; auto.
  - intros [E ->]. unfold current. auto.
  - intros (E & -> & [->| ->]); exists v; auto.
Qed.

Lemma step_nth_ok (pre post : Snapshot) (m : Manager) (i : nat)
  (qs : list (text * nat)) (rs : list Reader) :
  published m = pre \/ published m = post ->
  Forall2 (reader_ok pre post) qs rs ->
  Forall2 (reader_ok pre post) qs (step_nth m i rs).
Proof.
  intros Hm H. revert i; induction H as [|q r qs rs Hr Hrest IH]; intros i.
  - destruct i; constructor.
  - destruct i as [|i]; simpl; constructor; auto.
    now apply step_reader_ok.
Qed.

Lemma step_ok (cfg : ChunkerConfig) (m0 : Manager) (d : Document)
  (qs : list (text * nat)) (p : Pick) (s : System) :
  system_ok cfg m0 d qs s -> system_ok cfg m0 d qs (step cfg p s).
Proof.
  intros (Hw & Hp & Hr). destruct p as [|i]; simpl.
  - pose proof (step_writer_ok _ _ _ _ _ Hw) as Hw'.
    destruct (step_writer cfg (manager s) (writer s)) as [m w]; simpl in *.
    repeat split; auto. now apply writer_ok_published with w.
  - repeat split; auto. now apply step_nth_ok.
Qed.

Lemma interleave_ok (cfg : ChunkerConfig) (m0 : Manager) (d : Document)
  (qs : list (text * nat)) (schedule : list Pick) (s : System) :
  system_ok cfg m0 d qs s -> system_ok cfg m0 d qs (interleave cfg schedule s).
Proof.
  revert s; induction schedule as [|p rest IH]; intros s H; simpl; auto.
  now apply IH, step_ok.
Qed.

Lemma concurrent_start_ok (cfg : ChunkerConfig) (m0 : Manager) (d : Document)
  (qs : list (text * nat)) :
  system_ok cfg m0 d qs (concurrent_start m0 d qs).
Proof.
  repeat split; simpl; auto.
  induction qs as [|q qs IH]; simpl; constructor; simpl; auto.
Qed.

Lemma Forall2_nth_right {A B : Type} (R : A -> B -> Prop)
  (l : list A) (l' : list B) :
  Forall2 R l l' ->
  forall i y, nth_error l' i = Some y ->
              exists x, nth_error l i = Some x /\ R x y.
Proof.
  induction 1 as [|x y0 l l' Hxy Hrest IH]; intros i y Hi.
  - now destruct i.
  - destruct i as [|i]; simpl in *.
    + injection Hi as <-. now exists x.
    + now apply IH.
Qed.

(** C6: along every interleaving of the steps of addDocument with the
    steps of any number of queries, the published reference is the
    complete snapshot from before the add or the complete one after it,
    every reader holds one of those two, and every query result is the
    search of one of the two; no reader sees the snapshot under
    construction. *)
Theorem readers_see_whole_snapshots (cfg : ChunkerConfig) (m0 : Manager)
  (d : Document) (qs : list (text * nat)) (schedule : list Pick) :
  let s := interleave cfg schedule (concurrent_start m0 d qs) in
  let pre := published m0 in
  let post := post_add cfg m0 d in
  (published (manager s) = pre \/ published (manager s) = post) /\
  (forall i v k held, nth_error (readers s) i = Some (RHolding v k held) ->
                      held = pre \/ held = post) /\
  (forall i question k r,
      nth_error qs i = Some (question, k) ->
      nth_error (readers s) i = Some (RDone (Ok r)) ->
      exists v, embed question = Ok v /\
                (r = search pre v k \/ r = search post v k)) /\
  (writer s = WDone None -> published (manager s) = post).
Proof.
  cbv zeta.
  destruct (interleave_ok schedule (concurrent_start_ok cfg m0 d qs))
    as (Hw & Hp & Hr).
  set (s := interleave cfg schedule (concurrent_start m0 d qs)) in *.
  split; [exact Hp|]. split; [|split].
  - intros i v k held Hi.
    destruct (Forall2_nth_right Hr _ Hi) as (q & _ & Hq).
    simpl in Hq. tauto.
  - intros i question k r Hq Hi.
    destruct (Forall2_nth_right Hr _ Hi) as (q & Hq' & Hok).
    rewrite Hq in Hq'. injection Hq' as <-. exact Hok.
  - intros E. rewrite E in Hw. simpl in Hw. destruct Hw as (all & Hall & ->).
    unfold post_add, addDocument. now rewrite Hall.
Qed.

End Retrieval.

(** ** A small instance: one-dimensional embeddings *)

(** Similarity of two integers: the negated distance. *)
Definition sample_similarity (a b : Z) : Z := (- Z.abs (a - b))%Z.

(** A text is embedded as its number of words. *)
Definition sample_encoder (t : text) : Z := Z.of_nat (List.length t).

Definition sample_llm (p : Prompt) : option text :=
  match instruction p with
  | NoContextFound => Some ["no"; "context"; "found"]
  | AnswerOnlyFromContext => Some (List.concat (context p))
  end.

Lemma Z_leb_total (a b : Z) : Z.leb a b = true \/ Z.leb b a = true.
Proof. destruct (Z.leb_spec a b); [now left|right]. apply Z.leb_le. lia. Qed.

Lemma Z_leb_trans (a b c : Z) :
  Z.leb a b = true -> Z.leb b c = true -> Z.leb a c = true.
Proof. rewrite !Z.leb_le. lia. Qed.

Definition sample_chunk (id : nat) (t : text) : Chunk :=
  {| chunk_doc := id; chunk_index := 0; chunk_start := 0;
     chunk_end := List.length t; chunk_text := t |}.

Definition sample_embedded (id : nat) (t : text) : Embedded Z :=
  {| emb_chunk := sample_chunk id t; emb_vector := sample_encoder t |}.

(** Three chunks; the first and the third are equally far from a query of
    two words. *)
Definition sample_snapshot : Snapshot Z :=
  build [sample_embedded 1 ["fees"];
         sample_embedded 2 ["mobile"; "banking"];
         sample_embedded 3 ["card"; "limits"; "abroad"]].

Lemma search_sample :
  search_positions sample_similarity Z.leb sample_snapshot 2%Z 5 = [1; 0; 2] /\
  map (@hit_score Z) (search sample_similarity Z.leb sample_snapshot 2%Z 5)
  = [0; -1; -1]%Z /\
  search_positions sample_similarity Z.leb sample_snapshot 2%Z 2 = [1; 0].
Proof. repeat split. Qed.

Lemma search_sorted_bounded_witness :
  List.length (search sample_similarity Z.leb sample_snapshot 2%Z 5)
  = Nat.min 5 (List.length (snap_chunks sample_snapshot)).
Proof.
  exact (proj1 (search_sorted_bounded sample_similarity Z.leb
                  Z_leb_total Z_leb_trans sample_snapshot 2%Z 5)).
Defined.


(** One add and two queries: the first query reads the reference before
    the swap, the second after it; both finish, with the results of the
    old and of the new snapshot. *)
Definition sample_schedule : list Pick :=
  [PickReader 0; PickReader 0; PickWriter; PickWriter; PickWriter; PickWriter;
   PickWriter; PickWriter; PickReader 1; PickReader 1; PickReader 0;
   PickReader 1].

Lemma sample_interleaving :
  let s := interleave sample_similarity Z.leb sample_encoder 8 two_word_windows
             sample_schedule
             (concurrent_start Z (initial_manager Z) (faq 1 10)
                [(["fees"], 4); (["fees"], 4)]) in
  writer s = WDone Z None /\
  map (fun r => match r with
                | @RDone _ _ (Ok hits) => Some (List.length hits)
                | _ => None
                end) (readers s)
  = [Some 0; Some 4].
Proof. vm_compute. split; reflexivity. Qed.

End Core.
